(** * HPKE (draft-irtf-cfrg-hpke-06): sender and receiver orchestration

    A shallow embedding of [hpke/hpke.go] and of the parts of the package it
    calls, followed by the properties of the setup protocol, of the
    sequence-numbered Seal/Open contexts and of the exporter.

    Conventions of the embedding:
    - a Go byte slice is a [list byte]; the nil slice and the empty slice are
      both [[]] (the code only ever takes [len] of them);
    - a Go interface value or pointer that may be nil is an [option];
    - a Go result tuple is a Rocq tuple, with [option error] for [error];
    - a method with a pointer receiver takes the object and returns the
      object as the call leaves it, next to its results;
    - calls into the KEM and the KDF are recorded in a call trace, and the
      random source that [Encapsulate] reads is threaded explicitly. *)

From Stdlib Require Import List PeanoNat NArith Lia Bool String.
From Stdlib Require Import Strings.Byte.
Import ListNotations.

Local Open Scope N_scope.

(** ** Bytes *)

Definition bytes : Type := list byte.

Definition byte_of_N (n : N) : byte :=
  match Byte.of_N (n mod 256) with
  | Some b => b
  | None => x00
  end.

Definition byte_xor (a b : byte) : byte :=
  byte_of_N (N.lxor (Byte.to_N a) (Byte.to_N b)).

Fixpoint xor_bytes (a b : bytes) : bytes :=
  match a, b with
  | x :: a', y :: b' => byte_xor x y :: xor_bytes a' b'
  | _, _ => []
  end.

(** Big-endian encoding of [n] on [len] bytes (the high part is dropped). *)
Fixpoint I2OSP (len : nat) (n : N) : bytes :=
  match len with
  | O => []
  | S len' => I2OSP len' (n / 256) ++ [byte_of_N n]
  end.

Definition BE16 (n : N) : bytes := I2OSP 2 n.

Definition isEmpty (b : bytes) : bool :=
  match b with
  | [] => true
  | _ :: _ => false
  end.

Definition ascii_bytes (s : string) : bytes := list_byte_of_string s.

(** ** Errors

    [InvalidSuite] is the value of [errors.New("invalid suite")] in
    [NewSender] and [NewReceiver]; [KemFailure] carries whatever error the
    KEM returned; the others are the kinds of the error taxonomy. *)

Inductive error : Type :=
| InvalidSuite
| InvalidPSKInputs
| KemFailure (msg : string)
| KdfOutputTooLong
| AuthFailure
| MessageLimitReached.

(** ** Algorithm identifiers and modes (hpke.go, lines 44-66) *)

(** [type modeID = uint8] *)
Definition modeID : Type := byte.

Definition modeBase : modeID := x00.
Definition modePSK : modeID := x01.
Definition modeAuth : modeID := x02.
Definition modeAuthPSK : modeID := x03.

(** The three 16-bit registries. *)
Definition KemID : Type := N.
Definition KdfID : Type := N.
Definition AeadID : Type := N.

Record Suite : Type := mkSuite {
  Suite_KemID : KemID;
  Suite_KdfID : KdfID;
  Suite_AeadID : AeadID
}.

(** ** External collaborators *)

(** [kem.AuthScheme].  [PK] and [SK] are the non-nil public and private
    keys, [R] the state of the random source read by encapsulation. *)
Record AuthScheme (PK SK R : Type) : Type := mkAuthScheme {
  Encapsulate : option PK -> R -> (bytes * bytes * option error) * R;
  AuthEncapsulate :
    option PK -> option SK -> R -> (bytes * bytes * option error) * R;
  Decapsulate : option SK -> bytes -> bytes * option error;
  AuthDecapsulate : option SK -> bytes -> option PK -> bytes * option error
}.

Arguments Encapsulate {PK SK R} _ _ _.
Arguments AuthEncapsulate {PK SK R} _ _ _ _.
Arguments Decapsulate {PK SK R} _ _ _.
Arguments AuthDecapsulate {PK SK R} _ _ _ _.

(** The KDF: hash length [Nh], [Extract(salt, ikm)], [Expand(prk, info, L)]. *)
Record KDF : Type := mkKDF {
  Nh : N;
  Extract : bytes -> bytes -> bytes;
  Expand : bytes -> bytes -> N -> bytes
}.

(** The AEAD: key and nonce lengths, and the keyed Seal and Open. *)
Record AEAD : Type := mkAEAD {
  Nk : N;
  Nn : N;
  aeadSeal : bytes -> bytes -> bytes -> bytes -> bytes;
  aeadOpen : bytes -> bytes -> bytes -> bytes -> option bytes
}.

(** The suite registry: which identifiers are known, and the primitive
    each one names ([KemID.Scheme()], and the KDF and AEAD accessors). *)
Record Registry (PK SK R : Type) : Type := mkRegistry {
  kemKnown : KemID -> bool;
  kdfKnown : KdfID -> bool;
  aeadKnown : AeadID -> bool;
  Scheme : KemID -> AuthScheme PK SK R;
  kdfOf : KdfID -> KDF;
  aeadOf : AeadID -> AEAD
}.

Arguments kemKnown {PK SK R} _ _.
Arguments kdfKnown {PK SK R} _ _.
Arguments aeadKnown {PK SK R} _ _.
Arguments Scheme {PK SK R} _ _.
Arguments kdfOf {PK SK R} _ _.
Arguments aeadOf {PK SK R} _ _.

(** ** The embedding *)

Section HPKE.

Variables PK SK R : Type.

(** [state], [Sender] and [Receiver] (hpke.go, lines 68-82 and 152-156). *)
Record state : Type := mkState {
  state_Suite : Suite;
  state_modeID : modeID;
  state_skS : option SK;
  state_pkS : option PK;
  state_psk : bytes;
  state_pskID : bytes;
  state_info : bytes
}.

Record Sender : Type := mkSender {
  Sender_state : state;
  Sender_pkR : option PK
}.

Record Receiver : Type := mkReceiver {
  Receiver_state : state;
  Receiver_skR : option SK;
  Receiver_enc : bytes
}.

(** Field assignments. *)
Definition set_modeID (m : modeID) (st : state) : state :=
  mkState (state_Suite st) m (state_skS st) (state_pkS st)
          (state_psk st) (state_pskID st) (state_info st).

Definition set_skS (k : option SK) (st : state) : state :=
  mkState (state_Suite st) (state_modeID st) k (state_pkS st)
          (state_psk st) (state_pskID st) (state_info st).

Definition set_pkS (k : option PK) (st : state) : state :=
  mkState (state_Suite st) (state_modeID st) (state_skS st) k
          (state_psk st) (state_pskID st) (state_info st).

Definition set_psk (b : bytes) (st : state) : state :=
  mkState (state_Suite st) (state_modeID st) (state_skS st) (state_pkS st)
          b (state_pskID st) (state_info st).

Definition set_pskID (b : bytes) (st : state) : state :=
  mkState (state_Suite st) (state_modeID st) (state_skS st) (state_pkS st)
          (state_psk st) b (state_info st).

Definition Sender_with (f : state -> state) (s : Sender) : Sender :=
  mkSender (f (Sender_state s)) (Sender_pkR s).

Definition Receiver_with (f : state -> state) (r : Receiver) : Receiver :=
  mkReceiver (f (Receiver_state r)) (Receiver_skR r) (Receiver_enc r).

Definition Receiver_set_enc (enc : bytes) (r : Receiver) : Receiver :=
  mkReceiver (Receiver_state r) (Receiver_skR r) enc.

(** *** Call trace and random source *)

Inductive Call : Type :=
| CallEncapsulate (pkR : option PK)
| CallAuthEncapsulate (pkR : option PK) (skS : option SK)
| CallDecapsulate (skR : option SK) (enc : bytes)
| CallAuthDecapsulate (skR : option SK) (enc : bytes) (pkS : option PK)
| CallKeySchedule (m : modeID) (ss info psk pskID : bytes)
| CallLabeledExtract (label : string)
| CallLabeledExpand (label : string) (L : N).

(** A computation reads the random source and emits the calls it makes. *)
Definition M (A : Type) : Type := R -> A * list Call * R.

Definition ret {A : Type} (a : A) : M A := fun g => (a, [], g).

Definition bind {A B : Type} (m : M A) (f : A -> M B) : M B :=
  fun g =>
    let '(a, l1, g1) := m g in
    let '(b, l2, g2) := f a g1 in
    (b, l1 ++ l2, g2).

Definition tick (c : Call) : M unit := fun g => (tt, [c], g).

(** What a run returns and the calls it made. *)
Definition result {A : Type} (m : M A) (g : R) : A := fst (fst (m g)).
Definition calls {A : Type} (m : M A) (g : R) : list Call := snd (fst (m g)).
Definition rng_after {A : Type} (m : M A) (g : R) : R := snd (m g).

Local Notation "x <- c ;; k" := (bind c (fun x => k))
  (at level 61, c at next level, right associativity).

(** The primitives come from the suite registry. *)
Variable reg : Registry PK SK R.

Definition kdfOfSuite (su : Suite) : KDF := kdfOf reg (Suite_KdfID su).
Definition aeadOfSuite (su : Suite) : AEAD := aeadOf reg (Suite_AeadID su).

(** Modelled from the spec: [Suite.isValid], which the sources call but do
    not contain.  A suite is valid iff its three identifiers are known. *)
Definition isValid (su : Suite) : bool :=
  kemKnown reg (Suite_KemID su)
  && kdfKnown reg (Suite_KdfID su)
  && aeadKnown reg (Suite_AeadID su).

(** *** Labeled KDF *)

(** [const versionLabel = "HPKE-06"] (hpke.go, line 18). *)
Definition versionLabel : bytes := ascii_bytes "HPKE-06".

(** Modelled from the spec: the 10-byte HPKE suite identifier,
    ["HPKE" || KemID(2) || KdfID(2) || AeadID(2)]. *)
Definition suiteID (su : Suite) : bytes :=
  ascii_bytes "HPKE" ++ BE16 (Suite_KemID su) ++ BE16 (Suite_KdfID su)
  ++ BE16 (Suite_AeadID su).

(** Modelled from the spec: [LabeledExtract(salt, label, ikm) =
    KDF.Extract(salt, "HPKE-06" || suiteID || label || ikm)]. *)
Definition labeledExtract (su : Suite) (salt : bytes) (label : string)
    (ikm : bytes) : bytes :=
  Extract (kdfOfSuite su) salt
    (versionLabel ++ suiteID su ++ ascii_bytes label ++ ikm).

(** Modelled from the spec: [LabeledExpand(prk, label, info, L) =
    KDF.Expand(prk, "HPKE-06" || BE16(L) || suiteID || label || info, L)];
    [L] must fit in 16 bits and satisfy [L <= 255 * Nh]. *)
Definition labeledExpand (su : Suite) (prk : bytes) (label : string)
    (info : bytes) (L : N) : bytes * option error :=
  if (2 ^ 16 <=? L) || (255 * Nh (kdfOfSuite su) <? L)
  then ([], Some KdfOutputTooLong)
  else (Expand (kdfOfSuite su) prk
          (versionLabel ++ BE16 L ++ suiteID su ++ ascii_bytes label ++ info)
          L,
        None).

(** *** Contexts *)

(** Modelled from the spec: the AEAD context [encdecCtx], whose declaration
    is not in the sources ([baseNonce] and [exporterSecret] are the fields
    the test reads).  The AEAD instance is its suite and key. *)
Record encdecCtx : Type := mkCtx {
  ctx_Suite : Suite;
  ctx_key : bytes;
  baseNonce : bytes;
  exporterSecret : bytes;
  sequenceNumber : N
}.

(** [&sealCtx{ctx}] and [&openCtx{ctx}]: the two role facades. *)
Record sealCtx : Type := mkSealCtx { sealCtx_ctx : encdecCtx }.
Record openCtx : Type := mkOpenCtx { openCtx_ctx : encdecCtx }.

(** *** Key schedule *)

(** Modelled from the spec: the PSK check made at setup.
    [(len(psk)==0) == (len(pskID)==0)]; both empty under modeBase and
    modeAuth; both non-empty under modePSK and modeAuthPSK. *)
Definition verifyPSKInputs (m : modeID) (psk pskID : bytes) : option error :=
  if negb (Bool.eqb (isEmpty psk) (isEmpty pskID)) then Some InvalidPSKInputs
  else if (Byte.eqb m modeBase || Byte.eqb m modeAuth) && negb (isEmpty psk)
  then Some InvalidPSKInputs
  else if (Byte.eqb m modePSK || Byte.eqb m modeAuthPSK) && isEmpty psk
  then Some InvalidPSKInputs
  else None.

Definition tickExtract (su : Suite) (salt : bytes) (label : string)
    (ikm : bytes) : M bytes :=
  _ <- tick (CallLabeledExtract label) ;;
  ret (labeledExtract su salt label ikm).

Definition tickExpand (su : Suite) (prk : bytes) (label : string)
    (info : bytes) (L : N) : M (bytes * option error) :=
  _ <- tick (CallLabeledExpand label L) ;;
  ret (labeledExpand su prk label info L).

(** Modelled from the spec: [state.keySchedule], which the sources call but
    do not contain.  The PSK check comes before any derivation; then the
    seven steps of the schedule, in order; the context starts at seq 0. *)
Definition keySchedule (st : state) (ss info psk pskID : bytes)
    : M (option encdecCtx * option error) :=
  let su := state_Suite st in
  _ <- tick (CallKeySchedule (state_modeID st) ss info psk pskID) ;;
  match verifyPSKInputs (state_modeID st) psk pskID with
  | Some e => ret (None, Some e)
  | None =>
      pskIDHash <- tickExtract su [] "psk_id_hash" pskID ;;
      infoHash <- tickExtract su [] "info_hash" info ;;
      let keyScheduleContext := [state_modeID st] ++ pskIDHash ++ infoHash in
      secret <- tickExtract su ss "secret" psk ;;
      k <- tickExpand su secret "key" keyScheduleContext
             (Nk (aeadOfSuite su)) ;;
      match snd k with
      | Some e => ret (None, Some e)
      | None =>
          n <- tickExpand su secret "base_nonce" keyScheduleContext
                 (Nn (aeadOfSuite su)) ;;
          match snd n with
          | Some e => ret (None, Some e)
          | None =>
              x <- tickExpand su secret "exp" keyScheduleContext
                     (Nh (kdfOfSuite su)) ;;
              match snd x with
              | Some e => ret (None, Some e)
              | None => ret (Some (mkCtx su (fst k) (fst n) (fst x) 0), None)
              end
          end
      end
  end.

(** *** Sender (hpke.go, lines 84-149 and 212-232) *)

Definition NewSender (suite : Suite) (pkR : option PK) (info : bytes)
    : option Sender * option error :=
  if negb (isValid suite) then (None, Some InvalidSuite)
  else (Some (mkSender (mkState suite x00 None None [] [] info) pkR), None).

Definition Sender_buildBase (s : Sender) : Sender :=
  Sender_with (set_modeID modeBase) s.

Definition Sender_buildAuth (skS : option SK) (s : Sender) : Sender :=
  Sender_with (set_skS skS) (Sender_with (set_modeID modeAuth) s).

Definition Sender_buildPSK (psk pskID : bytes) (s : Sender) : Sender :=
  Sender_with (set_pskID pskID)
    (Sender_with (set_psk psk) (Sender_with (set_modeID modePSK) s)).

Definition Sender_buildAuthPSK (skS : option SK) (psk pskID : bytes)
    (s : Sender) : Sender :=
  Sender_with (set_pskID pskID)
    (Sender_with (set_psk psk)
       (Sender_with (set_skS skS) (Sender_with (set_modeID modeAuthPSK) s))).

Definition callEncapsulate (k : AuthScheme PK SK R) (pkR : option PK)
    : M (bytes * bytes * option error) :=
  fun g => let '(r, g') := Encapsulate k pkR g in (r, [CallEncapsulate pkR], g').

Definition callAuthEncapsulate (k : AuthScheme PK SK R) (pkR : option PK)
    (skS : option SK) : M (bytes * bytes * option error) :=
  fun g =>
    let '(r, g') := AuthEncapsulate k pkR skS g in
    (r, [CallAuthEncapsulate pkR skS], g').

Definition callDecapsulate (k : AuthScheme PK SK R) (skR : option SK)
    (enc : bytes) : M (bytes * option error) :=
  fun g => (Decapsulate k skR enc, [CallDecapsulate skR enc], g).

Definition callAuthDecapsulate (k : AuthScheme PK SK R) (skR : option SK)
    (enc : bytes) (pkS : option PK) : M (bytes * option error) :=
  fun g => (AuthDecapsulate k skR enc pkS, [CallAuthDecapsulate skR enc pkS], g).

(** [func (s *Sender) allSetup(k kem.AuthScheme) ([]byte, Sealer, error)].
    The switch has no default: under any other modeID no KEM call is made
    and [enc], [ss] and [err] keep their zero values.  [&sealCtx{ctx}] wraps
    the context that the key schedule returned, which is non-nil whenever
    the error is nil. *)
Definition Sender_allSetup (k : AuthScheme PK SK R) (s : Sender)
    : M (bytes * option sealCtx * option error) :=
  let st := Sender_state s in
  let m := state_modeID st in
  r <- (if Byte.eqb m modeBase || Byte.eqb m modePSK
        then callEncapsulate k (Sender_pkR s)
        else if Byte.eqb m modeAuth || Byte.eqb m modeAuthPSK
        then callAuthEncapsulate k (Sender_pkR s) (state_skS st)
        else ret ([], [], None)) ;;
  let '(enc, ss, err) := r in
  match err with
  | Some e => ret ([], None, Some e)
  | None =>
      c <- keySchedule st ss (state_info st) (state_psk st) (state_pskID st) ;;
      match c with
      | (_, Some e) => ret ([], None, Some e)
      | (ctx, None) => ret (enc, option_map mkSealCtx ctx, None)
      end
  end.

Definition SenderScheme (s : Sender) : AuthScheme PK SK R :=
  Scheme reg (Suite_KemID (state_Suite (Sender_state s))).

Definition Sender_Setup (s : Sender)
    : M (Sender * (bytes * option sealCtx * option error)) :=
  let s := Sender_buildBase s in
  r <- Sender_allSetup (SenderScheme s) s ;; ret (s, r).

Definition Sender_SetupAuth (skS : option SK) (s : Sender)
    : M (Sender * (bytes * option sealCtx * option error)) :=
  let s := Sender_buildAuth skS s in
  r <- Sender_allSetup (SenderScheme s) s ;; ret (s, r).

Definition Sender_SetupPSK (psk pskID : bytes) (s : Sender)
    : M (Sender * (bytes * option sealCtx * option error)) :=
  let s := Sender_buildPSK psk pskID s in
  r <- Sender_allSetup (SenderScheme s) s ;; ret (s, r).

Definition Sender_SetupAuthPSK (skS : option SK) (psk pskID : bytes)
    (s : Sender) : M (Sender * (bytes * option sealCtx * option error)) :=
  let s := Sender_buildAuthPSK skS psk pskID s in
  r <- Sender_allSetup (SenderScheme s) s ;; ret (s, r).

(** *** Receiver (hpke.go, lines 158-210 and 234-253) *)

Definition NewReceiver (suite : Suite) (skR : option SK) (info : bytes)
    : option Receiver * option error :=
  if negb (isValid suite) then (None, Some InvalidSuite)
  else (Some (mkReceiver (mkState suite x00 None None [] [] info) skR []),
        None).

(** [func (r *Receiver) allSetup() (Opener, error)] *)
Definition Receiver_allSetup (r : Receiver)
    : M (option openCtx * option error) :=
  let st := Receiver_state r in
  let m := state_modeID st in
  let k := Scheme reg (Suite_KemID (state_Suite st)) in
  d <- (if Byte.eqb m modeBase || Byte.eqb m modePSK
        then callDecapsulate k (Receiver_skR r) (Receiver_enc r)
        else if Byte.eqb m modeAuth || Byte.eqb m modeAuthPSK
        then callAuthDecapsulate k (Receiver_skR r) (Receiver_enc r)
               (state_pkS st)
        else ret ([], None)) ;;
  let '(ss, err) := d in
  match err with
  | Some e => ret (None, Some e)
  | None =>
      c <- keySchedule st ss (state_info st) (state_psk st) (state_pskID st) ;;
      match c with
      | (_, Some e) => ret (None, Some e)
      | (ctx, None) => ret (option_map mkOpenCtx ctx, None)
      end
  end.

Definition Receiver_Setup (enc : bytes) (r : Receiver)
    : M (Receiver * (option openCtx * option error)) :=
  let r := Receiver_with (set_modeID modeBase) r in
  let r := Receiver_set_enc enc r in
  o <- Receiver_allSetup r ;; ret (r, o).

Definition Receiver_SetupAuth (enc : bytes) (pkS : option PK) (r : Receiver)
    : M (Receiver * (option openCtx * option error)) :=
  let r := Receiver_with (set_modeID modeAuth) r in
  let r := Receiver_set_enc enc r in
  let r := Receiver_with (set_pkS pkS) r in
  o <- Receiver_allSetup r ;; ret (r, o).

Definition Receiver_SetupPSK (enc psk pskID : bytes) (r : Receiver)
    : M (Receiver * (option openCtx * option error)) :=
  let r := Receiver_with (set_modeID modePSK) r in
  let r := Receiver_set_enc enc r in
  let r := Receiver_with (set_psk psk) r in
  let r := Receiver_with (set_pskID pskID) r in
  o <- Receiver_allSetup r ;; ret (r, o).

Definition Receiver_SetupAuthPSK (enc psk pskID : bytes) (pkS : option PK)
    (r : Receiver) : M (Receiver * (option openCtx * option error)) :=
  let r := Receiver_with (set_modeID modeAuthPSK) r in
  let r := Receiver_set_enc enc r in
  let r := Receiver_with (set_psk psk) r in
  let r := Receiver_with (set_pskID pskID) r in
  let r := Receiver_with (set_pkS pkS) r in
  o <- Receiver_allSetup r ;; ret (r, o).

(** *** Seal, Open and Export *)

(** Modelled from the spec: [compute_nonce], absent from the sources.  The
    big-endian encoding of seq, left-padded to Nn bytes, XOR base_nonce. *)
Definition computeNonce (c : encdecCtx) : bytes :=
  xor_bytes (I2OSP (N.to_nat (Nn (aeadOfSuite (ctx_Suite c))))
               (sequenceNumber c))
            (baseNonce c).

Definition seqLimit (c : encdecCtx) : N :=
  2 ^ (8 * Nn (aeadOfSuite (ctx_Suite c))).

Definition set_seq (n : N) (c : encdecCtx) : encdecCtx :=
  mkCtx (ctx_Suite c) (ctx_key c) (baseNonce c) (exporterSecret c) n.

(** Modelled from the spec: [increment_seq], absent from the sources.
    If [seq == 2^(8*Nn) - 1] fail with MessageLimitReached without
    incrementing; else [seq <- seq + 1]. *)
Definition incrementSeq (c : encdecCtx) : encdecCtx * option error :=
  if sequenceNumber c =? seqLimit c - 1
  then (c, Some MessageLimitReached)
  else (set_seq (sequenceNumber c + 1) c, None).

(** Modelled from the spec: [Seal], absent from the sources.
    [ct <- aead.Seal(compute_nonce(seq), pt, aad)]; then [increment_seq()];
    when the increment fails its error is surfaced, next to the ct of the
    current seq. *)
Definition Seal (s : sealCtx) (pt aad : bytes)
    : sealCtx * (bytes * option error) :=
  let c := sealCtx_ctx s in
  let ct := aeadSeal (aeadOfSuite (ctx_Suite c)) (ctx_key c)
              (computeNonce c) pt aad in
  let '(c', err) := incrementSeq c in
  (mkSealCtx c', (ct, err)).

(** Modelled from the spec: [Open], absent from the sources.
    [pt <- aead.Open(compute_nonce(seq), ct, aad)]; on success
    [increment_seq()]; on AEAD failure return AuthFailure and do not
    advance seq.  The spec leaves open which bytes come with a failed
    increment; the model hands out none. *)
Definition Open (o : openCtx) (ct aad : bytes)
    : openCtx * (bytes * option error) :=
  let c := openCtx_ctx o in
  match aeadOpen (aeadOfSuite (ctx_Suite c)) (ctx_key c)
          (computeNonce c) ct aad with
  | None => (o, ([], Some AuthFailure))
  | Some pt =>
      match incrementSeq c with
      | (c', None) => (mkOpenCtx c', (pt, None))
      | (c', Some e) => (mkOpenCtx c', ([], Some e))
      end
  end.

(** How a call of a method without an [error] result can end. *)
Inductive outcome (A : Type) : Type :=
| Returned (a : A)
| Panicked (e : error).

(** Modelled from the spec: the body of [Export], absent from the sources:
    [Export(expCtx, L) = LabeledExpand(exporter_secret, "sec", expCtx, L)].
    Its signature is the one of the [Exporter] interface (hpke.go, lines
    24-26), [Export(expCtx []byte, len uint16) []byte]: there is no error
    result, so a failing expansion ends the call in a panic. *)
Definition Export (c : encdecCtx) (expCtx : bytes) (len : N)
    : outcome bytes :=
  match labeledExpand (ctx_Suite c) (exporterSecret c) "sec" expCtx len with
  | (_, Some e) => Panicked bytes e
  | (okm, None) => Returned bytes okm
  end.

(** *** The four modes, and messages exchanged in order *)

Inductive mode : Type := Base | PSK | Auth | AuthPSK.

Definition modeID_of (md : mode) : modeID :=
  match md with
  | Base => modeBase
  | PSK => modePSK
  | Auth => modeAuth
  | AuthPSK => modeAuthPSK
  end.

(** The exported sender method of mode [md], given the mode parameters. *)
Definition Sender_SetupIn (md : mode) (skS : option SK) (psk pskID : bytes)
    (s : Sender) : M (Sender * (bytes * option sealCtx * option error)) :=
  match md with
  | Base => Sender_Setup s
  | PSK => Sender_SetupPSK psk pskID s
  | Auth => Sender_SetupAuth skS s
  | AuthPSK => Sender_SetupAuthPSK skS psk pskID s
  end.

(** The exported receiver method of mode [md]. *)
Definition Receiver_SetupIn (md : mode) (enc : bytes) (pkS : option PK)
    (psk pskID : bytes) (r : Receiver)
    : M (Receiver * (option openCtx * option error)) :=
  match md with
  | Base => Receiver_Setup enc r
  | PSK => Receiver_SetupPSK enc psk pskID r
  | Auth => Receiver_SetupAuth enc pkS r
  | AuthPSK => Receiver_SetupAuthPSK enc psk pskID pkS r
  end.

(** One message through the pair: Seal, then Open of that ciphertext. *)
Record exchanged : Type := mkExchanged {
  sealed : bytes * option error;
  opened : bytes * option error
}.

(** The loop of [checkEncryptions] (vectors_test.go, lines 168-182): each
    [(pt, aad)] is sealed and the ciphertext opened with the same aad. *)
Fixpoint exchange (se : sealCtx) (op : openCtx) (msgs : list (bytes * bytes))
    : list exchanged :=
  match msgs with
  | [] => []
  | (pt, aad) :: rest =>
      let '(se', sr) := Seal se pt aad in
      let '(op', orr) := Open op (fst sr) aad in
      mkExchanged sr orr :: exchange se' op' rest
  end.

(** Sealing a list of messages with one context. *)
Fixpoint sealAll (se : sealCtx) (msgs : list (bytes * bytes))
    : sealCtx * list (bytes * option error) :=
  match msgs with
  | [] => (se, [])
  | (pt, aad) :: rest =>
      let '(se', sr) := Seal se pt aad in
      let '(se'', srs) := sealAll se' rest in
      (se'', sr :: srs)
  end.

Definition succeeded (r : bytes * option error) : bool :=
  match snd r with
  | None => true
  | Some _ => false
  end.

Definition successes (rs : list (bytes * option error)) : nat :=
  List.length (filter succeeded rs).

End HPKE.

Arguments mkState {PK SK}.
Arguments state_Suite {PK SK} _.
Arguments state_modeID {PK SK} _.
Arguments state_skS {PK SK} _.
Arguments state_pkS {PK SK} _.
Arguments state_psk {PK SK} _.
Arguments state_pskID {PK SK} _.
Arguments state_info {PK SK} _.
Arguments mkSender {PK SK}.
Arguments Sender_state {PK SK} _.
Arguments Sender_pkR {PK SK} _.
Arguments mkReceiver {PK SK}.
Arguments Receiver_state {PK SK} _.
Arguments Receiver_skR {PK SK} _.
Arguments Receiver_enc {PK SK} _.
Arguments set_modeID {PK SK}.
Arguments set_skS {PK SK}.
Arguments set_pkS {PK SK}.
Arguments set_psk {PK SK}.
Arguments set_pskID {PK SK}.
Arguments Sender_with {PK SK}.
Arguments Receiver_with {PK SK}.
Arguments Receiver_set_enc {PK SK}.
Arguments CallEncapsulate {PK SK}.
Arguments CallAuthEncapsulate {PK SK}.
Arguments CallDecapsulate {PK SK}.
Arguments CallAuthDecapsulate {PK SK}.
Arguments CallKeySchedule {PK SK}.
Arguments CallLabeledExtract {PK SK}.
Arguments CallLabeledExpand {PK SK}.
Arguments ret {PK SK R A}.
Arguments bind {PK SK R A B}.
Arguments tick {PK SK R}.
Arguments result {PK SK R A}.
Arguments calls {PK SK R A}.
Arguments rng_after {PK SK R A}.
Arguments kdfOfSuite {PK SK R}.
Arguments aeadOfSuite {PK SK R}.
Arguments isValid {PK SK R}.
Arguments labeledExtract {PK SK R}.
Arguments labeledExpand {PK SK R}.
Arguments tickExtract {PK SK R}.
Arguments tickExpand {PK SK R}.
Arguments keySchedule {PK SK R}.
Arguments NewSender {PK SK R}.
Arguments Sender_buildBase {PK SK}.
Arguments Sender_buildAuth {PK SK}.
Arguments Sender_buildPSK {PK SK}.
Arguments Sender_buildAuthPSK {PK SK}.
Arguments callEncapsulate {PK SK R}.
Arguments callAuthEncapsulate {PK SK R}.
Arguments callDecapsulate {PK SK R}.
Arguments callAuthDecapsulate {PK SK R}.
Arguments Sender_allSetup {PK SK R}.
Arguments SenderScheme {PK SK R}.
Arguments Sender_Setup {PK SK R}.
Arguments Sender_SetupAuth {PK SK R}.
Arguments Sender_SetupPSK {PK SK R}.
Arguments Sender_SetupAuthPSK {PK SK R}.
Arguments NewReceiver {PK SK R}.
Arguments Receiver_allSetup {PK SK R}.
Arguments Receiver_Setup {PK SK R}.
Arguments Receiver_SetupAuth {PK SK R}.
Arguments Receiver_SetupPSK {PK SK R}.
Arguments Receiver_SetupAuthPSK {PK SK R}.
Arguments computeNonce {PK SK R}.
Arguments seqLimit {PK SK R}.
Arguments incrementSeq {PK SK R}.
Arguments Seal {PK SK R}.
Arguments Open {PK SK R}.
Arguments Export {PK SK R}.
Arguments Sender_SetupIn {PK SK R}.
Arguments Receiver_SetupIn {PK SK R}.
Arguments exchange {PK SK R}.
Arguments sealAll {PK SK R}.
Arguments Returned {A}.
Arguments Panicked {A}.

(** ** A small concrete suite

    One KEM, one KDF and one AEAD, simple enough to evaluate, on which the
    general statements are instantiated.  Keys are numbers, the public key
    of [sk] is [sk + 1]; the random source is a counter; the AEAD has
    one-byte nonces, so that its message limit is within reach. *)

Module Demo.

Definition pkOf (sk : N) : N := sk + 1.

Definition secretOf (pkR : N) (enc : bytes) : bytes := byte_of_N pkR :: enc.

Definition authSecretOf (pkR pkS : N) (enc : bytes) : bytes :=
  byte_of_N pkR :: byte_of_N pkS :: enc.

Definition kem : AuthScheme N N N :=
  mkAuthScheme N N N
    (fun pkR g =>
       match pkR with
       | Some pk => (([byte_of_N g], secretOf pk [byte_of_N g], None), g + 1)
       | None => (([], [], Some (KemFailure "nil public key")), g)
       end)
    (fun pkR skS g =>
       match pkR, skS with
       | Some pk, Some sk =>
           (([byte_of_N g], authSecretOf pk (pkOf sk) [byte_of_N g], None),
            g + 1)
       | _, _ => (([], [], Some (KemFailure "nil key")), g)
       end)
    (fun skR enc =>
       match skR with
       | Some sk => (secretOf (pkOf sk) enc, None)
       | None => ([], Some (KemFailure "nil private key"))
       end)
    (fun skR enc pkS =>
       match skR, pkS with
       | Some sk, Some pk => (authSecretOf (pkOf sk) pk enc, None)
       | _, _ => ([], Some (KemFailure "nil key"))
       end).

Definition take (L : N) (b : bytes) : bytes :=
  firstn (N.to_nat L) (b ++ repeat x00 (N.to_nat L)).

Definition kdf : KDF :=
  mkKDF 32 (fun salt ikm => take 32 (salt ++ ikm))
           (fun prk info L => take L (prk ++ info)).

Definition tagOf (key nonce aad : bytes) : byte :=
  fold_right byte_xor x00 (key ++ nonce ++ aad).

Definition aead : AEAD :=
  mkAEAD 16 1
    (fun key nonce pt aad => tagOf key nonce aad :: pt)
    (fun key nonce ct aad =>
       match ct with
       | t :: pt => if Byte.eqb t (tagOf key nonce aad) then Some pt else None
       | [] => None
       end).

Definition registry : Registry N N N :=
  mkRegistry N N N (N.eqb 32) (N.eqb 1) (N.eqb 1)
    (fun _ => kem) (fun _ => kdf) (fun _ => aead).

Definition suite : Suite := mkSuite 32 1 1.

Definition sender : Sender N N :=
  mkSender (mkState suite x00 None None [] [] [x69]) (Some 8).

Definition receiver : Receiver N N :=
  mkReceiver (mkState suite x00 None None [] [] [x69]) (Some 7) [].

(** A sender and a receiver built with nil keys. *)
Definition senderNoKey : Sender N N :=
  mkSender (mkState suite x00 None None [] [] [x69]) None.

Definition receiverNoKey : Receiver N N :=
  mkReceiver (mkState suite x00 None None [] [] [x69]) None [].

Definition ctx : encdecCtx := mkCtx suite [x01] [x02] [x03] 0.

Definition msg : bytes * bytes := ([x05], [x06]).

(** A sender and a receiver whose modeID is none of the four constants; no
    exported call leaves an object so. *)
Definition senderOddMode : Sender N N :=
  mkSender (mkState suite x04 None None [] [] [x69]) (Some 8).

Definition receiverOddMode : Receiver N N :=
  mkReceiver (mkState suite x04 None None [] [] [x69]) (Some 7) [x00].

(** The sealer that AuthPSK setup returns to [sender], with sender key 3,
    at random state 5 (the encapsulated key is then the byte 5). *)
Definition sealer : sealCtx :=
  Eval vm_compute in
    match snd (result (Sender_SetupIn registry AuthPSK (Some 3) [x01] [x02]
                         sender) 5) with
    | (_, Some s, _) => s
    | _ => mkSealCtx ctx
    end.

End Demo.

(** ** Notions used in the statements *)

Section Notions.

Context {PK SK R : Type}.

Definition isKemCall (c : Call PK SK) : bool :=
  match c with
  | CallEncapsulate _ | CallAuthEncapsulate _ _
  | CallDecapsulate _ _ | CallAuthDecapsulate _ _ _ => true
  | _ => false
  end.

Definition isKeyScheduleCall (c : Call PK SK) : bool :=
  match c with
  | CallKeySchedule _ _ _ _ _ => true
  | _ => false
  end.

(** The derivations of the key schedule. *)
Definition isDerivation (c : Call PK SK) : bool :=
  match c with
  | CallLabeledExtract _ | CallLabeledExpand _ _ => true
  | _ => false
  end.

(** The calls made by setup itself: the trace without the derivations that
    the key schedule makes in turn. *)
Definition setupCalls (l : list (Call PK SK)) : list (Call PK SK) :=
  filter (fun c => negb (isDerivation c)) l.

(** The KEM is correct for the receiver pair [(skR, pkR)] and the sender
    pair [(skS, pkS)]: what encapsulation to [pkR] yields, decapsulation
    with [skR] recovers. *)
Definition kem_correct (k : AuthScheme PK SK R) (skR : SK) (pkR : PK)
    (skS : SK) (pkS : PK) : Prop :=
  (forall g enc ss g',
      Encapsulate k (Some pkR) g = ((enc, ss, None), g') ->
      Decapsulate k (Some skR) enc = (ss, None))
  /\ (forall g enc ss g',
      AuthEncapsulate k (Some pkR) (Some skS) g = ((enc, ss, None), g') ->
      AuthDecapsulate k (Some skR) enc (Some pkS) = (ss, None)).

(** The AEAD opens what it sealed under the same key, nonce and aad. *)
Definition aead_correct (a : AEAD) : Prop :=
  forall key nonce pt aad,
    aeadOpen a key nonce (aeadSeal a key nonce pt aad) aad = Some pt.

(** The PSK inputs break the rule of the mode: asymmetric emptiness, or
    present under Base/Auth, or absent under PSK/AuthPSK. *)
Definition pskViolation (md : mode) (psk pskID : bytes) : Prop :=
  isEmpty psk <> isEmpty pskID
  \/ match md with
     | Base | Auth => isEmpty psk = false \/ isEmpty pskID = false
     | PSK | AuthPSK => isEmpty psk = true \/ isEmpty pskID = true
     end.

(** The KEM operation that sender setup makes in mode [md]. *)
Definition senderKemError (k : AuthScheme PK SK R) (md : mode)
    (pkR : option PK) (skS : option SK) (g : R) : option error :=
  match md with
  | Base | PSK => snd (fst (Encapsulate k pkR g))
  | Auth | AuthPSK => snd (fst (AuthEncapsulate k pkR skS g))
  end.

(** The KEM operation that receiver setup makes in mode [md]. *)
Definition receiverKemError (k : AuthScheme PK SK R) (md : mode)
    (skR : option SK) (enc : bytes) (pkS : option PK) : option error :=
  match md with
  | Base | PSK => snd (Decapsulate k skR enc)
  | Auth | AuthPSK => snd (AuthDecapsulate k skR enc pkS)
  end.

(** What allSetup makes of the result of the key schedule. *)
Definition sealerOf (enc : bytes) (c : option encdecCtx * option error)
    : bytes * option sealCtx * option error :=
  match c with
  | (_, Some e) => ([], None, Some e)
  | (ctx, None) => (enc, option_map mkSealCtx ctx, None)
  end.

Definition openerOf (c : option encdecCtx * option error)
    : option openCtx * option error :=
  match c with
  | (_, Some e) => (None, Some e)
  | (ctx, None) => (option_map mkOpenCtx ctx, None)
  end.

(** The key schedule as allSetup calls it, on the fields of the object. *)
Definition scheduleOf (reg : Registry PK SK R) (st : state PK SK)
    (ss : bytes) : M PK SK R (option encdecCtx * option error) :=
  keySchedule reg st ss (state_info st) (state_psk st) (state_pskID st).

(** The key schedule call that follows a KEM operation without error. *)
Definition scheduleIfOk (err : option error) (c : Call PK SK)
    : list (Call PK SK) :=
  match err with
  | None => [c]
  | Some _ => []
  end.

(** Whether an expansion to [L] bytes is refused under suite [su]. *)
Definition expandError (reg : Registry PK SK R) (su : Suite) (L : N)
    : option error :=
  if (2 ^ 16 <=? L) || (255 * Nh (kdfOfSuite reg su) <? L)
  then Some KdfOutputTooLong
  else None.

End Notions.

(** ** Sequences of Setup* calls on one object *)

Section Sequences.

Context {PK SK R : Type}.
Variable reg : Registry PK SK R.

(** One exported sender call: the method (by its mode) and its arguments;
    [Setup] ignores all three, [SetupAuth] takes [skS], [SetupPSK] takes
    [psk] and [pskID], [SetupAuthPSK] takes them all. *)
Definition SenderCall : Type := mode * option SK * bytes * bytes.

(** One exported receiver call: the method, [enc] and its other arguments. *)
Definition ReceiverCall : Type := mode * bytes * option PK * bytes * bytes.

Definition Sender_call (c : SenderCall) (s : Sender PK SK)
    : M PK SK R (Sender PK SK * (bytes * option sealCtx * option error)) :=
  let '(md, skS, psk, pskID) := c in Sender_SetupIn reg md skS psk pskID s.

Definition Receiver_call (c : ReceiverCall) (r : Receiver PK SK)
    : M PK SK R (Receiver PK SK * (option openCtx * option error)) :=
  let '(md, enc, pkS, psk, pskID) := c in
  Receiver_SetupIn reg md enc pkS psk pskID r.

(** The calls of a list made one after the other on the same object,
    whatever each returns; the result is the object as the last call
    leaves it. *)
Fixpoint Sender_calls (cs : list SenderCall) (s : Sender PK SK)
    : M PK SK R (Sender PK SK) :=
  match cs with
  | [] => ret s
  | c :: cs' => bind (Sender_call c s) (fun o => Sender_calls cs' (fst o))
  end.

Fixpoint Receiver_calls (cs : list ReceiverCall) (r : Receiver PK SK)
    : M PK SK R (Receiver PK SK) :=
  match cs with
  | [] => ret r
  | c :: cs' => bind (Receiver_call c r) (fun o => Receiver_calls cs' (fst o))
  end.

(** Whether a method takes a sender key (or the sender's public key) and
    whether it takes PSK inputs. *)
Definition takesKey (md : mode) : bool :=
  match md with
  | Auth | AuthPSK => true
  | Base | PSK => false
  end.

Definition takesPSK (md : mode) : bool :=
  match md with
  | PSK | AuthPSK => true
  | Base | Auth => false
  end.

(** The value a field holds after a list of calls: the one of the last call
    that takes it, else the initial one. *)
Definition lastSet {C A : Type} (takes : C -> bool) (arg : C -> A)
    (cs : list C) (init : A) : A :=
  fold_left (fun a c => if takes c then arg c else a) cs init.

Definition sc_mode (c : SenderCall) : mode := fst (fst (fst c)).
Definition sc_skS (c : SenderCall) : option SK := snd (fst (fst c)).
Definition sc_psk (c : SenderCall) : bytes := snd (fst c).
Definition sc_pskID (c : SenderCall) : bytes := snd c.

Definition rc_mode (c : ReceiverCall) : mode := fst (fst (fst (fst c))).
Definition rc_enc (c : ReceiverCall) : bytes := snd (fst (fst (fst c))).
Definition rc_pkS (c : ReceiverCall) : option PK := snd (fst (fst c)).
Definition rc_psk (c : ReceiverCall) : bytes := snd (fst c).
Definition rc_pskID (c : ReceiverCall) : bytes := snd c.

(** One of the four modeID constants. *)
Definition knownMode (m : modeID) : bool :=
  Byte.eqb m modeBase || Byte.eqb m modePSK || Byte.eqb m modeAuth
  || Byte.eqb m modeAuthPSK.

(** The KEM operation that sender setup makes in mode [md], with all it
    returns. *)
Definition senderKem (k : AuthScheme PK SK R) (md : mode) (pkR : option PK)
    (skS : option SK) (g : R) : (bytes * bytes * option error) * R :=
  match md with
  | Base | PSK => Encapsulate k pkR g
  | Auth | AuthPSK => AuthEncapsulate k pkR skS g
  end.

(** The KEM operation that receiver setup makes in mode [md]. *)
Definition receiverKem (k : AuthScheme PK SK R) (md : mode)
    (skR : option SK) (enc : bytes) (pkS : option PK)
    : bytes * option error :=
  match md with
  | Base | PSK => Decapsulate k skR enc
  | Auth | AuthPSK => AuthDecapsulate k skR enc pkS
  end.

End Sequences.

Arguments lastSet {C A} takes arg cs init.

Arguments scheduleOf {PK SK R} reg st ss _ : simpl never.
Arguments keySchedule {PK SK R} reg st ss info psk pskID _ : simpl never.

(** ** Properties *)

Section Properties.

Context {PK SK R : Type}.
Variable reg : Registry PK SK R.

Ltac run :=
  unfold result, calls, rng_after, bind, ret, tick in *; simpl in *.

(** *** The trace monad *)

Lemma result_bind_ret {A B : Type} (m : M PK SK R A) (b : B) (g : R) :
  result (bind m (fun a => ret (R := R) (b, a))) g = (b, result m g).
Proof. run. destruct (m g) as [[a l] g']. reflexivity. Qed.

Lemma calls_bind_ret {A B : Type} (m : M PK SK R A) (b : B) (g : R) :
  calls (bind m (fun a => ret (R := R) (b, a))) g = calls m g.
Proof. run. destruct (m g) as [[a l] g']. simpl. apply app_nil_r. Qed.

(** *** The key schedule *)

(** The calls of a key schedule run: the call itself, then derivations. *)
Lemma keySchedule_setupCalls st ss info psk pskID g :
  setupCalls (calls (keySchedule reg st ss info psk pskID) g)
  = [CallKeySchedule (state_modeID st) ss info psk pskID].
Proof.
  unfold keySchedule, tickExtract, tickExpand. run.
  destruct (verifyPSKInputs _ _ _); simpl; [reflexivity|].
  repeat match goal with
         | |- context [snd (labeledExpand ?a ?b ?c ?d ?e ?f)] =>
             destruct (snd (labeledExpand a b c d e f)); simpl
         end; reflexivity.
Qed.

(** A failed PSK check stops the key schedule before any derivation. *)
Lemma keySchedule_psk_error st ss info psk pskID g e :
  verifyPSKInputs (state_modeID st) psk pskID = Some e ->
  keySchedule reg st ss info psk pskID g
  = ((None, Some e), [CallKeySchedule (state_modeID st) ss info psk pskID], g).
Proof.
  intros H. unfold keySchedule. run. rewrite H. reflexivity.
Qed.

(** The key schedule returns a context exactly when it returns no error,
    and the context starts at sequence number 0. *)
Lemma keySchedule_result st ss info psk pskID g :
  (exists e, result (keySchedule reg st ss info psk pskID) g = (None, Some e))
  \/ (exists c, result (keySchedule reg st ss info psk pskID) g = (Some c, None)
                /\ sequenceNumber c = 0
                /\ ctx_Suite c = state_Suite st).
Proof.
  unfold keySchedule, tickExtract, tickExpand. run.
  destruct (verifyPSKInputs _ _ _); simpl; [left; eauto|].
  repeat match goal with
         | |- context [snd (labeledExpand ?a ?b ?c ?d ?e ?f)] =>
             destruct (snd (labeledExpand a b c d e f)); simpl;
             [left; eauto|]
         end.
  right. eexists. repeat split.
Qed.

(** *** allSetup, unfolded by mode *)

Lemma Sender_allSetup_encap k (s : Sender PK SK) g :
  state_modeID (Sender_state s) = modeBase
  \/ state_modeID (Sender_state s) = modePSK ->
  Sender_allSetup reg k s g
  = let '((enc, ss, err), g1) := Encapsulate k (Sender_pkR s) g in
    match err with
    | Some e => (([], None, Some e), [CallEncapsulate (Sender_pkR s)], g1)
    | None =>
        let '(c, l, g2) := scheduleOf reg (Sender_state s) ss g1 in
        (sealerOf enc c, CallEncapsulate (Sender_pkR s) :: l, g2)
    end.
Proof.
  intros Hm. unfold Sender_allSetup, scheduleOf, sealerOf, callEncapsulate.
  destruct Hm as [-> | ->]; run;
    destruct (Encapsulate k (Sender_pkR s) g) as [[[enc ss] [e|]] g1];
    simpl; try reflexivity;
    destruct (keySchedule _ _ _ _ _ _ _) as [[[ctx [e|]] l] g2];
    simpl; rewrite ?app_nil_r; reflexivity.
Qed.

Lemma Sender_allSetup_auth k (s : Sender PK SK) g :
  state_modeID (Sender_state s) = modeAuth
  \/ state_modeID (Sender_state s) = modeAuthPSK ->
  Sender_allSetup reg k s g
  = let '((enc, ss, err), g1) :=
        AuthEncapsulate k (Sender_pkR s) (state_skS (Sender_state s)) g in
    let c0 := CallAuthEncapsulate (Sender_pkR s) (state_skS (Sender_state s)) in
    match err with
    | Some e => (([], None, Some e), [c0], g1)
    | None =>
        let '(c, l, g2) := scheduleOf reg (Sender_state s) ss g1 in
        (sealerOf enc c, c0 :: l, g2)
    end.
Proof.
  intros Hm. unfold Sender_allSetup, scheduleOf, sealerOf, callAuthEncapsulate.
  destruct Hm as [-> | ->]; run;
    destruct (AuthEncapsulate k _ _ g) as [[[enc ss] [e|]] g1];
    simpl; try reflexivity;
    destruct (keySchedule _ _ _ _ _ _ _) as [[[ctx [e|]] l] g2];
    simpl; rewrite ?app_nil_r; reflexivity.
Qed.

Lemma Receiver_allSetup_decap (r : Receiver PK SK) g :
  state_modeID (Receiver_state r) = modeBase
  \/ state_modeID (Receiver_state r) = modePSK ->
  Receiver_allSetup reg r g
  = let k := Scheme reg (Suite_KemID (state_Suite (Receiver_state r))) in
    let c0 := CallDecapsulate (Receiver_skR r) (Receiver_enc r) in
    let '(ss, err) := Decapsulate k (Receiver_skR r) (Receiver_enc r) in
    match err with
    | Some e => ((None, Some e), [c0], g)
    | None =>
        let '(c, l, g2) := scheduleOf reg (Receiver_state r) ss g in
        (openerOf c, c0 :: l, g2)
    end.
Proof.
  intros Hm. unfold Receiver_allSetup, scheduleOf, openerOf, callDecapsulate.
  destruct Hm as [-> | ->]; run;
    destruct (Decapsulate _ _ _) as [ss [e|]];
    simpl; try reflexivity;
    destruct (keySchedule _ _ _ _ _ _ _) as [[[ctx [e|]] l] g2];
    simpl; rewrite ?app_nil_r; reflexivity.
Qed.

Lemma Receiver_allSetup_auth (r : Receiver PK SK) g :
  state_modeID (Receiver_state r) = modeAuth
  \/ state_modeID (Receiver_state r) = modeAuthPSK ->
  Receiver_allSetup reg r g
  = let k := Scheme reg (Suite_KemID (state_Suite (Receiver_state r))) in
    let c0 := CallAuthDecapsulate (Receiver_skR r) (Receiver_enc r)
                (state_pkS (Receiver_state r)) in
    let '(ss, err) := AuthDecapsulate k (Receiver_skR r) (Receiver_enc r)
                        (state_pkS (Receiver_state r)) in
    match err with
    | Some e => ((None, Some e), [c0], g)
    | None =>
        let '(c, l, g2) := scheduleOf reg (Receiver_state r) ss g in
        (openerOf c, c0 :: l, g2)
    end.
Proof.
  intros Hm.
  unfold Receiver_allSetup, scheduleOf, openerOf, callAuthDecapsulate.
  destruct Hm as [-> | ->]; run;
    destruct (AuthDecapsulate _ _ _ _) as [ss [e|]];
    simpl; try reflexivity;
    destruct (keySchedule _ _ _ _ _ _ _) as [[[ctx [e|]] l] g2];
    simpl; rewrite ?app_nil_r; reflexivity.
Qed.

Lemma setupCalls_schedule (st : state PK SK) ss g c l g2 :
  scheduleOf reg st ss g = (c, l, g2) ->
  setupCalls l
  = [CallKeySchedule (state_modeID st) ss (state_info st) (state_psk st)
       (state_pskID st)].
Proof.
  intros H. unfold scheduleOf in H.
  pose proof (keySchedule_setupCalls st ss (state_info st) (state_psk st)
                (state_pskID st) g) as K.
  unfold calls in K. rewrite H in K. exact K.
Qed.

Ltac sender_cases :=
  unfold Sender_SetupIn, Sender_Setup, Sender_SetupPSK, Sender_SetupAuth,
    Sender_SetupAuthPSK;
  rewrite ?calls_bind_ret, ?result_bind_ret; unfold calls, result;
  first [ rewrite Sender_allSetup_encap by (simpl; auto)
        | rewrite Sender_allSetup_auth by (simpl; auto) ];
  unfold SenderScheme, Sender_buildBase, Sender_buildPSK, Sender_buildAuth,
    Sender_buildAuthPSK;
  simpl.

Ltac receiver_cases :=
  unfold Receiver_SetupIn, Receiver_Setup, Receiver_SetupPSK,
    Receiver_SetupAuth, Receiver_SetupAuthPSK;
  rewrite ?calls_bind_ret, ?result_bind_ret; unfold calls, result;
  first [ rewrite Receiver_allSetup_decap by (simpl; auto)
        | rewrite Receiver_allSetup_auth by (simpl; auto) ];
  simpl.

(** *** Which KEM operation and which key schedule each setup runs *)

(** C3.  Sender setup calls [Encapsulate(pkR)] in modes Base and PSK and
    [AuthEncapsulate(pkR, skS)] in modes Auth and AuthPSK; receiver setup
    calls [Decapsulate(skR, enc)] in Base and PSK and
    [AuthDecapsulate(skR, enc, pkS)] in Auth and AuthPSK; when that call
    returns no error, the one call that follows is the key schedule, run
    with the modeID of the variant (0, 1, 2, 3) on the shared secret. *)
Theorem setup_kem_and_schedule (md : mode) (skS : option SK)
    (pkS : option PK) (psk pskID enc : bytes) (s : Sender PK SK)
    (r : Receiver PK SK) (g : R) :
  let st := Sender_state s in
  let rt := Receiver_state r in
  let k := Scheme reg (Suite_KemID (state_Suite st)) in
  let kr := Scheme reg (Suite_KemID (state_Suite rt)) in
  setupCalls (calls (Sender_SetupIn reg md skS psk pskID s) g)
  = match md with
    | Base =>
        let '(_, ss, err) := fst (Encapsulate k (Sender_pkR s) g) in
        CallEncapsulate (Sender_pkR s)
        :: scheduleIfOk err
             (CallKeySchedule x00 ss (state_info st) (state_psk st)
                (state_pskID st))
    | PSK =>
        let '(_, ss, err) := fst (Encapsulate k (Sender_pkR s) g) in
        CallEncapsulate (Sender_pkR s)
        :: scheduleIfOk err (CallKeySchedule x01 ss (state_info st) psk pskID)
    | Auth =>
        let '(_, ss, err) := fst (AuthEncapsulate k (Sender_pkR s) skS g) in
        CallAuthEncapsulate (Sender_pkR s) skS
        :: scheduleIfOk err
             (CallKeySchedule x02 ss (state_info st) (state_psk st)
                (state_pskID st))
    | AuthPSK =>
        let '(_, ss, err) := fst (AuthEncapsulate k (Sender_pkR s) skS g) in
        CallAuthEncapsulate (Sender_pkR s) skS
        :: scheduleIfOk err (CallKeySchedule x03 ss (state_info st) psk pskID)
    end
  /\ setupCalls (calls (Receiver_SetupIn reg md enc pkS psk pskID r) g)
  = match md with
    | Base =>
        let '(ss, err) := Decapsulate kr (Receiver_skR r) enc in
        CallDecapsulate (Receiver_skR r) enc
        :: scheduleIfOk err
             (CallKeySchedule x00 ss (state_info rt) (state_psk rt)
                (state_pskID rt))
    | PSK =>
        let '(ss, err) := Decapsulate kr (Receiver_skR r) enc in
        CallDecapsulate (Receiver_skR r) enc
        :: scheduleIfOk err (CallKeySchedule x01 ss (state_info rt) psk pskID)
    | Auth =>
        let '(ss, err) := AuthDecapsulate kr (Receiver_skR r) enc pkS in
        CallAuthDecapsulate (Receiver_skR r) enc pkS
        :: scheduleIfOk err
             (CallKeySchedule x02 ss (state_info rt) (state_psk rt)
                (state_pskID rt))
    | AuthPSK =>
        let '(ss, err) := AuthDecapsulate kr (Receiver_skR r) enc pkS in
        CallAuthDecapsulate (Receiver_skR r) enc pkS
        :: scheduleIfOk err (CallKeySchedule x03 ss (state_info rt) psk pskID)
    end.
Proof.
  intros st rt k kr. subst st rt k kr. split.
  - destruct md; sender_cases;
      match goal with
      | |- context [Encapsulate ?a ?b ?c] =>
          destruct (Encapsulate a b c) as [[[e1 ss] [e|]] g1]
      | |- context [AuthEncapsulate ?a ?b ?c ?d] =>
          destruct (AuthEncapsulate a b c d) as [[[e1 ss] [e|]] g1]
      end; simpl; try reflexivity;
      match goal with
      | |- context [scheduleOf reg ?st ?ss ?g] =>
          destruct (scheduleOf reg st ss g) as [[c l] g2] eqn:E;
          apply setupCalls_schedule in E
      end; simpl in *; unfold setupCalls in *; simpl; rewrite E; reflexivity.
  - destruct md; receiver_cases;
      match goal with
      | |- context [Decapsulate ?a ?b ?c] =>
          destruct (Decapsulate a b c) as [ss [e|]]
      | |- context [AuthDecapsulate ?a ?b ?c ?d] =>
          destruct (AuthDecapsulate a b c d) as [ss [e|]]
      end; simpl; try reflexivity;
      match goal with
      | |- context [scheduleOf reg ?st ?ss ?g] =>
          destruct (scheduleOf reg st ss g) as [[c l] g2] eqn:E;
          apply setupCalls_schedule in E
      end; simpl in *; unfold setupCalls in *; simpl; rewrite E; reflexivity.
Qed.

(** *** KEM failures *)

Lemma Sender_kem_error (md : mode) (skS : option SK) (psk pskID : bytes)
    (s : Sender PK SK) (g : R) (e : error) :
  senderKemError (SenderScheme reg s) md (Sender_pkR s) skS g = Some e ->
  snd (result (Sender_SetupIn reg md skS psk pskID s) g) = ([], None, Some e)
  /\ filter isKeyScheduleCall
       (calls (Sender_SetupIn reg md skS psk pskID s) g) = []
  /\ filter isDerivation
       (calls (Sender_SetupIn reg md skS psk pskID s) g) = [].
Proof.
  intros H. unfold senderKemError, SenderScheme in H.
  destruct md; sender_cases;
    match goal with
    | |- context [Encapsulate ?a ?b ?c] =>
        destruct (Encapsulate a b c) as [[[e1 ss] err] g1]
    | |- context [AuthEncapsulate ?a ?b ?c ?d] =>
        destruct (AuthEncapsulate a b c d) as [[[e1 ss] err] g1]
    end; simpl in H; subst err; simpl; auto.
Qed.

Lemma Receiver_kem_error (md : mode) (pkS : option PK)
    (psk pskID enc : bytes) (r : Receiver PK SK) (g : R) (e : error) :
  receiverKemError (Scheme reg (Suite_KemID (state_Suite (Receiver_state r))))
    md (Receiver_skR r) enc pkS = Some e ->
  snd (result (Receiver_SetupIn reg md enc pkS psk pskID r) g)
  = (None, Some e)
  /\ filter isKeyScheduleCall
       (calls (Receiver_SetupIn reg md enc pkS psk pskID r) g) = []
  /\ filter isDerivation
       (calls (Receiver_SetupIn reg md enc pkS psk pskID r) g) = [].
Proof.
  intros H. unfold receiverKemError in H.
  destruct md; receiver_cases;
    match goal with
    | |- context [Decapsulate ?a ?b ?c] =>
        destruct (Decapsulate a b c) as [ss err]
    | |- context [AuthDecapsulate ?a ?b ?c ?d] =>
        destruct (AuthDecapsulate a b c d) as [ss err]
    end; simpl in H; subst err; simpl; auto.
Qed.

(** C6.  If the KEM operation of sender (receiver) setup returns an error,
    setup returns that error, every other result is nil, and the trace of
    the call holds no key schedule call and no derivation. *)
Theorem kem_failure_aborts_setup (md : mode) (skS : option SK)
    (pkS : option PK) (psk pskID enc : bytes) (s : Sender PK SK)
    (r : Receiver PK SK) (g : R) (e : error) :
  (senderKemError (SenderScheme reg s) md (Sender_pkR s) skS g = Some e ->
   let run := Sender_SetupIn reg md skS psk pskID s in
   snd (result run g) = ([], None, Some e)
   /\ filter isKeyScheduleCall (calls run g) = []
   /\ filter isDerivation (calls run g) = [])
  /\ (receiverKemError
        (Scheme reg (Suite_KemID (state_Suite (Receiver_state r))))
        md (Receiver_skR r) enc pkS = Some e ->
      let run := Receiver_SetupIn reg md enc pkS psk pskID r in
      snd (result run g) = (None, Some e)
      /\ filter isKeyScheduleCall (calls run g) = []
      /\ filter isDerivation (calls run g) = []).
Proof.
  split; intros H run; subst run.
  - now apply Sender_kem_error.
  - now apply Receiver_kem_error.
Qed.

(** *** What a setup call writes into the object *)

(** C9.  Every Setup* call leaves the object with its modeID and the mode
    parameters it takes overwritten (the receiver's [enc] too) and every
    other field as it was; so a [skS] stored by SetupAuth is still there
    after a later SetupPSK, and [psk]/[pskID] stored by SetupPSK are still
    there after a later Setup. *)
Theorem setup_frame (skS skS' : option SK) (pkS : option PK)
    (psk pskID psk' pskID' enc : bytes) (s : Sender PK SK)
    (r : Receiver PK SK) (g g' : R) :
  let st := Sender_state s in
  let rt := Receiver_state r in
  fst (result (Sender_Setup reg s) g)
  = mkSender (mkState (state_Suite st) x00 (state_skS st) (state_pkS st)
                (state_psk st) (state_pskID st) (state_info st))
      (Sender_pkR s)
  /\ fst (result (Sender_SetupAuth reg skS s) g)
     = mkSender (mkState (state_Suite st) x02 skS (state_pkS st)
                   (state_psk st) (state_pskID st) (state_info st))
         (Sender_pkR s)
  /\ fst (result (Sender_SetupPSK reg psk pskID s) g)
     = mkSender (mkState (state_Suite st) x01 (state_skS st) (state_pkS st)
                   psk pskID (state_info st))
         (Sender_pkR s)
  /\ fst (result (Sender_SetupAuthPSK reg skS psk pskID s) g)
     = mkSender (mkState (state_Suite st) x03 skS (state_pkS st)
                   psk pskID (state_info st))
         (Sender_pkR s)
  /\ fst (result (Receiver_Setup reg enc r) g)
     = mkReceiver (mkState (state_Suite rt) x00 (state_skS rt) (state_pkS rt)
                     (state_psk rt) (state_pskID rt) (state_info rt))
         (Receiver_skR r) enc
  /\ fst (result (Receiver_SetupAuth reg enc pkS r) g)
     = mkReceiver (mkState (state_Suite rt) x02 (state_skS rt) pkS
                     (state_psk rt) (state_pskID rt) (state_info rt))
         (Receiver_skR r) enc
  /\ fst (result (Receiver_SetupPSK reg enc psk pskID r) g)
     = mkReceiver (mkState (state_Suite rt) x01 (state_skS rt) (state_pkS rt)
                     psk pskID (state_info rt))
         (Receiver_skR r) enc
  /\ fst (result (Receiver_SetupAuthPSK reg enc psk pskID pkS r) g)
     = mkReceiver (mkState (state_Suite rt) x03 (state_skS rt) pkS
                     psk pskID (state_info rt))
         (Receiver_skR r) enc
  /\ state_skS (Sender_state
       (fst (result (Sender_SetupPSK reg psk pskID
                       (fst (result (Sender_SetupAuth reg skS s) g))) g')))
     = skS
  /\ (let s2 := fst (result (Sender_Setup reg
                       (fst (result (Sender_SetupPSK reg psk pskID s) g))) g')
      in state_psk (Sender_state s2) = psk
         /\ state_pskID (Sender_state s2) = pskID
         /\ state_modeID (Sender_state s2) = modeBase).
Proof.
  intros st rt.
  unfold Sender_Setup, Sender_SetupAuth, Sender_SetupPSK, Sender_SetupAuthPSK,
    Receiver_Setup, Receiver_SetupAuth, Receiver_SetupPSK,
    Receiver_SetupAuthPSK.
  rewrite !result_bind_ret. simpl. repeat split.
Qed.

(** *** Construction *)

(** C7.  NewSender and NewReceiver return the invalid-suite error, and no
    object, for every suite with an unknown KemID, KdfID or AeadID; for a
    suite whose three identifiers are known they return a fresh object
    (no mode parameters yet) and no error. *)
Theorem New_validates_suite (su : Suite) (pkR : option PK) (skR : option SK)
    (info : bytes) :
  (kemKnown reg (Suite_KemID su) = false
   \/ kdfKnown reg (Suite_KdfID su) = false
   \/ aeadKnown reg (Suite_AeadID su) = false ->
   NewSender reg su pkR info = (None, Some InvalidSuite)
   /\ NewReceiver reg su skR info = (None, Some InvalidSuite))
  /\ (kemKnown reg (Suite_KemID su) = true
      /\ kdfKnown reg (Suite_KdfID su) = true
      /\ aeadKnown reg (Suite_AeadID su) = true ->
      NewSender reg su pkR info
      = (Some (mkSender (mkState su x00 None None [] [] info) pkR), None)
      /\ NewReceiver reg su skR info
         = (Some (mkReceiver (mkState su x00 None None [] [] info) skR []),
            None)).
Proof.
  unfold NewSender, NewReceiver, isValid. split.
  - intros [H | [H | H]]; rewrite H; rewrite ?andb_false_r; simpl; auto.
  - intros (H1 & H2 & H3). rewrite H1, H2, H3. simpl. auto.
Qed.

(** C10.  Construction looks at the suite only: for a valid suite, any key
    (nil included) and any info it returns the object and no error; a key
    the KEM rejects makes the later Setup call fail, with the KEM's error. *)
Theorem New_defers_key_errors (su : Suite) (pkR : option PK)
    (skR : option SK) (info : bytes) :
  isValid reg su = true ->
  let s0 := mkSender (mkState su x00 None None [] [] info) pkR in
  let r0 := mkReceiver (mkState su x00 None None [] [] info) skR [] in
  let k := Scheme reg (Suite_KemID su) in
  NewSender reg su pkR info = (Some s0, None)
  /\ NewReceiver reg su skR info = (Some r0, None)
  /\ (forall g e,
         snd (fst (Encapsulate k pkR g)) = Some e ->
         snd (result (Sender_Setup reg s0) g) = ([], None, Some e))
  /\ (forall g enc e,
         snd (Decapsulate k skR enc) = Some e ->
         snd (result (Receiver_Setup reg enc r0) g) = (None, Some e)).
Proof.
  intros Hv s0 r0 k. unfold NewSender, NewReceiver. rewrite Hv. simpl.
  repeat split.
  - intros g e H.
    apply (Sender_kem_error Base None [] [] s0 g e). exact H.
  - intros g enc e H.
    apply (Receiver_kem_error Base None [] [] enc r0 g e). exact H.
Qed.

(** *** The PSK check *)

Lemma verifyPSKInputs_violation md psk pskID :
  pskViolation md psk pskID ->
  verifyPSKInputs (modeID_of md) psk pskID = Some InvalidPSKInputs.
Proof.
  unfold pskViolation, verifyPSKInputs.
  destruct md, psk, pskID; simpl; intros [H | [H | H]];
    congruence || reflexivity.
Qed.

Lemma verifyPSKInputs_ok md psk pskID :
  ~ pskViolation md psk pskID ->
  verifyPSKInputs (modeID_of md) psk pskID = None.
Proof.
  unfold pskViolation, verifyPSKInputs.
  destruct md, psk, pskID; simpl; intros H; try reflexivity;
    exfalso; apply H; auto; left; discriminate.
Qed.

Lemma scheduleOf_psk_error (md : mode) (st : state PK SK) ss g :
  state_modeID st = modeID_of md ->
  pskViolation md (state_psk st) (state_pskID st) ->
  exists l, scheduleOf reg st ss g = ((None, Some InvalidPSKInputs), l, g)
            /\ filter isDerivation l = [].
Proof.
  intros Hm Hv. unfold scheduleOf.
  rewrite (keySchedule_psk_error st ss _ _ _ g InvalidPSKInputs).
  - eexists. split; reflexivity.
  - rewrite Hm. now apply verifyPSKInputs_violation.
Qed.

(** C4, as the code has it.  When the PSK inputs held by the object break
    the rule of the mode, the Setup* call fails and hands out no context;
    no derivation of the key schedule is made; and the error is
    InvalidPSKInputs provided the KEM operation, which runs first, returned
    no error. *)
Theorem psk_check_at_setup (md : mode) (skS : option SK) (pkS : option PK)
    (psk pskID enc : bytes) (s : Sender PK SK) (r : Receiver PK SK) (g : R) :
  let srun := Sender_SetupIn reg md skS psk pskID s in
  let rrun := Receiver_SetupIn reg md enc pkS psk pskID r in
  let s' := fst (result srun g) in
  let r' := fst (result rrun g) in
  (pskViolation md (state_psk (Sender_state s'))
     (state_pskID (Sender_state s')) ->
   snd (snd (result srun g)) <> None
   /\ snd (fst (snd (result srun g))) = None
   /\ filter isDerivation (calls srun g) = []
   /\ (senderKemError (SenderScheme reg s) md (Sender_pkR s) skS g = None ->
       snd (result srun g) = ([], None, Some InvalidPSKInputs)))
  /\ (pskViolation md (state_psk (Receiver_state r'))
        (state_pskID (Receiver_state r')) ->
      snd (snd (result rrun g)) <> None
      /\ fst (snd (result rrun g)) = None
      /\ filter isDerivation (calls rrun g) = []
      /\ (receiverKemError
            (Scheme reg (Suite_KemID (state_Suite (Receiver_state r))))
            md (Receiver_skR r) enc pkS = None ->
          snd (result rrun g) = (None, Some InvalidPSKInputs))).
Proof.
  intros srun rrun s' r'. subst s' r' srun rrun. split.
  - unfold senderKemError, SenderScheme.
    destruct md; sender_cases; intros Hv;
      match goal with
      | |- context [Encapsulate ?a ?b ?c] =>
          destruct (Encapsulate a b c) as [[[e1 ss] [e|]] g1]
      | |- context [AuthEncapsulate ?a ?b ?c ?d] =>
          destruct (AuthEncapsulate a b c d) as [[[e1 ss] [e|]] g1]
      end; simpl;
      try (repeat split; congruence);
      match goal with
      | |- context [scheduleOf reg ?st ?ss ?g] =>
          match type of Hv with
          | pskViolation ?m _ _ =>
              destruct (scheduleOf_psk_error m st ss g eq_refl Hv)
                as (l & -> & Hl)
          end
      end; simpl; rewrite Hl; repeat split; congruence.
  - unfold receiverKemError.
    destruct md; receiver_cases; intros Hv;
      match goal with
      | |- context [Decapsulate ?a ?b ?c] =>
          destruct (Decapsulate a b c) as [ss [e|]]
      | |- context [AuthDecapsulate ?a ?b ?c ?d] =>
          destruct (AuthDecapsulate a b c d) as [ss [e|]]
      end; simpl;
      try (repeat split; congruence);
      match goal with
      | |- context [scheduleOf reg ?st ?ss ?g] =>
          match type of Hv with
          | pskViolation ?m _ _ =>
              destruct (scheduleOf_psk_error m st ss g eq_refl Hv)
                as (l & -> & Hl)
          end
      end; simpl; rewrite Hl; repeat split; congruence.
Qed.

(** *** Repeated setup *)

Lemma labeledExpand_snd su prk label info L :
  snd (labeledExpand reg su prk label info L) = expandError reg su L.
Proof.
  unfold labeledExpand, expandError.
  destruct ((2 ^ 16 <=? L) || (255 * Nh (kdfOfSuite reg su) <? L));
    reflexivity.
Qed.

(** Whether the key schedule fails depends on the suite, the mode and the
    PSK inputs only, not on the shared secret or the random source. *)
Lemma keySchedule_error_indep (st : state PK SK) ss ss' info info' psk pskID
    g g' :
  snd (result (keySchedule reg st ss info psk pskID) g)
  = snd (result (keySchedule reg st ss' info' psk pskID) g').
Proof.
  unfold keySchedule, tickExtract, tickExpand. run.
  destruct (verifyPSKInputs _ _ _); simpl; [reflexivity|].
  rewrite !labeledExpand_snd.
  repeat match goal with
         | |- context [expandError ?a ?b ?c] =>
             destruct (expandError a b c); simpl; try reflexivity
         end.
Qed.

Lemma scheduleOf_rng_indep (st : state PK SK) ss g g' :
  fst (fst (scheduleOf reg st ss g)) = fst (fst (scheduleOf reg st ss g')).
Proof.
  unfold scheduleOf, keySchedule, tickExtract, tickExpand. run.
  destruct (verifyPSKInputs _ _ _); simpl; [reflexivity|].
  repeat match goal with
         | |- context [snd (labeledExpand ?a ?b ?c ?d ?e ?f)] =>
             destruct (snd (labeledExpand a b c d e f)); simpl;
             try reflexivity
         end.
Qed.

Lemma scheduleOf_ok_again (st : state PK SK) ss g c l g1 ss' g' :
  scheduleOf reg st ss g = ((Some c, None), l, g1) ->
  exists c' l' g1', scheduleOf reg st ss' g' = ((Some c', None), l', g1').
Proof.
  unfold scheduleOf. intros H.
  pose proof (keySchedule_error_indep st ss ss' (state_info st)
                (state_info st) (state_psk st) (state_pskID st) g g') as E.
  unfold result in E. rewrite H in E. simpl in E.
  destruct (keySchedule_result st ss' (state_info st) (state_psk st)
              (state_pskID st) g') as [[e K] | (c' & K & _)];
    unfold result in K;
    destruct (keySchedule reg st ss' _ _ _ g') as [[x l'] g1'];
    simpl in *; subst x; simpl in E; [discriminate|].
  eauto.
Qed.

Lemma build_twice (skS : option SK) (psk pskID : bytes) (s : Sender PK SK) :
  Sender_buildBase (Sender_buildBase s) = Sender_buildBase s
  /\ Sender_buildPSK psk pskID (Sender_buildPSK psk pskID s)
     = Sender_buildPSK psk pskID s
  /\ Sender_buildAuth skS (Sender_buildAuth skS s) = Sender_buildAuth skS s
  /\ Sender_buildAuthPSK skS psk pskID (Sender_buildAuthPSK skS psk pskID s)
     = Sender_buildAuthPSK skS psk pskID s.
Proof. repeat split. Qed.

Lemma Receiver_Setup_twice (md : mode) (pkS : option PK)
    (psk pskID enc : bytes) (r : Receiver PK SK) (g g2 : R) :
  let r1 := fst (result (Receiver_SetupIn reg md enc pkS psk pskID r) g) in
  fst (result (Receiver_SetupIn reg md enc pkS psk pskID r1) g2) = r1
  /\ snd (result (Receiver_SetupIn reg md enc pkS psk pskID r1) g2)
     = result (Receiver_allSetup reg r1) g2
  /\ snd (result (Receiver_SetupIn reg md enc pkS psk pskID r) g)
     = result (Receiver_allSetup reg r1) g.
Proof.
  destruct md;
    unfold Receiver_SetupIn, Receiver_Setup, Receiver_SetupPSK,
      Receiver_SetupAuth, Receiver_SetupAuthPSK;
    rewrite !result_bind_ret; simpl; repeat split.
Qed.

Lemma Receiver_allSetup_rng_indep (r : Receiver PK SK) (g g2 : R) :
  result (Receiver_allSetup reg r) g = result (Receiver_allSetup reg r) g2.
Proof.
  unfold Receiver_allSetup, callDecapsulate, callAuthDecapsulate. run.
  destruct (_ || _); [|destruct (_ || _)]; simpl;
    try match goal with
      | |- context [Decapsulate ?a ?b ?c] =>
          destruct (Decapsulate a b c) as [ss [e|]]
      | |- context [AuthDecapsulate ?a ?b ?c ?d] =>
          destruct (AuthDecapsulate a b c d) as [ss [e|]]
      end; simpl; try reflexivity;
    match goal with
    | |- context [keySchedule reg ?st ?ss ?i ?p ?q g2] =>
        pose proof (scheduleOf_rng_indep st ss g2 g) as Kr;
        unfold scheduleOf in Kr;
        destruct (keySchedule reg st ss i p q g2) as [[x2 l2] g2'];
        destruct (keySchedule reg st ss i p q g) as [[x1 l1] g1'];
        simpl in Kr; subst x2; destruct x1 as [c [e|]]; reflexivity
    end.
Qed.

(** C8, as the code has it.  The objects keep no record of having been set
    up.  After a successful Setup* call, the same call on the same object
    runs the same steps again: the sender's returns a further context
    whenever its KEM operation returns no error, and the receiver's returns
    the same opener again. *)
Theorem setup_can_be_repeated (md : mode) (skS : option SK)
    (pkS : option PK) (psk pskID enc : bytes) (s : Sender PK SK)
    (r : Receiver PK SK) (g g2 : R) :
  (forall s1 e1 c1,
      result (Sender_SetupIn reg md skS psk pskID s) g
      = (s1, (e1, Some c1, None)) ->
      senderKemError (SenderScheme reg s1) md (Sender_pkR s1) skS g2 = None ->
      exists e2 c2,
        result (Sender_SetupIn reg md skS psk pskID s1) g2
        = (s1, (e2, Some c2, None)))
  /\ (forall r1 o1,
         result (Receiver_SetupIn reg md enc pkS psk pskID r) g
         = (r1, (Some o1, None)) ->
         result (Receiver_SetupIn reg md enc pkS psk pskID r1) g2
         = (r1, (Some o1, None))).
Proof.
  split.
  - intros s1 e1 c1 H Hk. unfold senderKemError, SenderScheme in Hk.
    destruct (build_twice skS psk pskID s) as (B1 & B2 & B3 & B4).
    destruct md;
      unfold Sender_SetupIn, Sender_Setup, Sender_SetupPSK, Sender_SetupAuth,
        Sender_SetupAuthPSK in *;
      rewrite result_bind_ret in *; unfold result in *;
      injection H as <- H;
      rewrite ?B1, ?B2, ?B3, ?B4; clear B1 B2 B3 B4;
      first [ rewrite Sender_allSetup_encap in * by (simpl; auto)
            | rewrite Sender_allSetup_auth in * by (simpl; auto) ];
      unfold SenderScheme, Sender_buildBase, Sender_buildPSK,
        Sender_buildAuth, Sender_buildAuthPSK in *; simpl in *;
      match goal with
      | |- context [Encapsulate ?a ?b g2] =>
          destruct (Encapsulate a b g2) as [[[e2 ss2] err2] g3]
      | |- context [AuthEncapsulate ?a ?b ?c g2] =>
          destruct (AuthEncapsulate a b c g2) as [[[e2 ss2] err2] g3]
      end; simpl in Hk; subst err2;
      match type of H with
      | context [Encapsulate ?a ?b g] =>
          destruct (Encapsulate a b g) as [[[e0 ss0] [e|]] g0]
      | context [AuthEncapsulate ?a ?b ?c g] =>
          destruct (AuthEncapsulate a b c g) as [[[e0 ss0] [e|]] g0]
      end; simpl in H; try discriminate;
      match type of H with
      | context [scheduleOf reg ?st ?ss ?gg] =>
          destruct (scheduleOf reg st ss gg) as [[[c0 [e|]] l0] g0'] eqn:E;
          simpl in H; try discriminate;
          destruct c0 as [c0|]; simpl in H; try discriminate;
          match goal with
          | |- context [scheduleOf reg st ?ss' ?gg'] =>
              destruct (scheduleOf_ok_again st ss gg c0 l0 g0' ss' gg' E)
                as (c' & l' & g' & ->)
          end
      end; simpl; eauto.
  - intros r1 o1 H.
    destruct (Receiver_Setup_twice md pkS psk pskID enc r g g2)
      as (T1 & T2 & T3).
    rewrite H in T1, T2, T3. simpl in T1, T2, T3.
    rewrite (surjective_pairing (result _ g2)), T1, T2.
    rewrite (Receiver_allSetup_rng_indep r1 g2 g), <- T3. reflexivity.
Qed.

(** *** The exporter *)


(** *** Sequence numbers *)

Lemma seqLimit_pos (c : encdecCtx) : 0 < seqLimit reg c.
Proof.
  unfold seqLimit. apply N.neq_0_lt_0. apply N.pow_nonzero. discriminate.
Qed.

Lemma incrementSeq_at_limit (c : encdecCtx) :
  sequenceNumber c = seqLimit reg c - 1 ->
  incrementSeq reg c = (c, Some MessageLimitReached).
Proof.
  intros H. unfold incrementSeq.
  apply N.eqb_eq in H. rewrite H. reflexivity.
Qed.

Lemma incrementSeq_below_limit (c : encdecCtx) :
  sequenceNumber c <> seqLimit reg c - 1 ->
  incrementSeq reg c = (set_seq (sequenceNumber c + 1) c, None).
Proof.
  intros H. unfold incrementSeq.
  apply N.eqb_neq in H. rewrite H. reflexivity.
Qed.

(** Seal, by cases on the sequence number. *)
Lemma Seal_cases (c : encdecCtx) (pt aad : bytes) :
  let ct := aeadSeal (aeadOfSuite reg (ctx_Suite c)) (ctx_key c)
              (computeNonce reg c) pt aad in
  (sequenceNumber c = seqLimit reg c - 1 ->
   Seal reg (mkSealCtx c) pt aad
   = (mkSealCtx c, (ct, Some MessageLimitReached)))
  /\ (sequenceNumber c <> seqLimit reg c - 1 ->
      Seal reg (mkSealCtx c) pt aad
      = (mkSealCtx (set_seq (sequenceNumber c + 1) c), (ct, None))).
Proof.
  intros ct. subst ct. unfold Seal. simpl. split; intros H.
  - rewrite (incrementSeq_at_limit c H). reflexivity.
  - rewrite (incrementSeq_below_limit c H). reflexivity.
Qed.

(** Open, by cases on the AEAD result and the sequence number. *)
Lemma Open_cases (c : encdecCtx) (ct aad : bytes) :
  let dec := aeadOpen (aeadOfSuite reg (ctx_Suite c)) (ctx_key c)
               (computeNonce reg c) ct aad in
  (dec = None ->
   Open reg (mkOpenCtx c) ct aad = (mkOpenCtx c, ([], Some AuthFailure)))
  /\ (forall pt, dec = Some pt ->
        sequenceNumber c = seqLimit reg c - 1 ->
        Open reg (mkOpenCtx c) ct aad
        = (mkOpenCtx c, ([], Some MessageLimitReached)))
  /\ (forall pt, dec = Some pt ->
        sequenceNumber c <> seqLimit reg c - 1 ->
        Open reg (mkOpenCtx c) ct aad
        = (mkOpenCtx (set_seq (sequenceNumber c + 1) c), (pt, None))).
Proof.
  intros dec. subst dec. unfold Open. simpl. repeat split.
  - intros ->. reflexivity.
  - intros pt -> H. rewrite (incrementSeq_at_limit c H). reflexivity.
  - intros pt -> H. rewrite (incrementSeq_below_limit c H). reflexivity.
Qed.

(** Sealing a list of messages from sequence number [n]: the Seals that
    succeed are exactly those at the first [limit - 1 - n] positions. *)
Lemma sealAll_from (msgs : list (bytes * bytes)) :
  forall c : encdecCtx,
    sequenceNumber c < seqLimit reg c ->
    let room := N.to_nat (seqLimit reg c - 1 - sequenceNumber c) in
    let out := sealAll reg (mkSealCtx c) msgs in
    successes (snd out) = Nat.min (List.length msgs) room
    /\ sequenceNumber (sealCtx_ctx (fst out))
       = sequenceNumber c + N.of_nat (successes (snd out))
    /\ forall i r, nth_error (snd out) i = Some r ->
         snd r = if Nat.ltb i room then None else Some MessageLimitReached.
Proof.
  induction msgs as [|[pt aad] rest IH]; intros c Hc room out.
  - subst out. simpl. repeat split.
    + rewrite N.add_0_r. reflexivity.
    + intros [|i] r H; discriminate.
  - subst out. cbn [sealAll].
    destruct (Seal_cases c pt aad) as [Hat Hbelow].
    destruct (N.eq_dec (sequenceNumber c) (seqLimit reg c - 1)) as [E|E].
    + rewrite (Hat E).
      specialize (IH c Hc). cbv zeta in IH.
      destruct (sealAll reg (mkSealCtx c) rest) as [s' rs].
      simpl in *. unfold successes in *. simpl.
      subst room.
      assert (Hroom : N.to_nat (seqLimit reg c - 1 - sequenceNumber c)
                      = 0%nat) by lia.
      rewrite Hroom in *. destruct IH as (I1 & I2 & I3).
      rewrite Nat.min_0_r in *.
      repeat split.
      * exact I1.
      * exact I2.
      * intros [|i] r H; simpl in H.
        -- injection H as <-. reflexivity.
        -- apply I3 in H. exact H.
    + rewrite (Hbelow E).
      pose proof (seqLimit_pos c) as Hpos.
      specialize (IH (set_seq (sequenceNumber c + 1) c)).
      change (seqLimit reg (set_seq (sequenceNumber c + 1) c))
        with (seqLimit reg c) in IH.
      change (sequenceNumber (set_seq (sequenceNumber c + 1) c))
        with (sequenceNumber c + 1) in IH.
      specialize (IH ltac:(lia)). cbv zeta in IH.
      destruct (sealAll reg (mkSealCtx (set_seq _ c)) rest) as [s' rs].
      cbn [fst snd] in *. destruct IH as (I1 & I2 & I3).
      subst room.
      assert (Hroom : N.to_nat (seqLimit reg c - 1 - sequenceNumber c)
                      = S (N.to_nat (seqLimit reg c - 1
                                     - (sequenceNumber c + 1)))) by lia.
      rewrite Hroom. unfold successes in *. cbn [filter succeeded snd length].
      repeat split.
      * apply (f_equal S) in I1. exact I1.
      * rewrite I2. simpl (List.length (_ :: _)). lia.
      * intros [|i] r H; cbn [nth_error] in H.
        -- injection H as <-. reflexivity.
        -- apply I3 in H. exact H.
Qed.


(** *** Round trip *)

(** The key schedule reads the suite and the modeID of the object, nothing
    else of it, and does not depend on the random source. *)
Lemma keySchedule_state_indep (st st' : state PK SK) ss info psk pskID g g' :
  state_Suite st = state_Suite st' ->
  state_modeID st = state_modeID st' ->
  result (keySchedule reg st ss info psk pskID) g
  = result (keySchedule reg st' ss info psk pskID) g'.
Proof.
  intros Hs Hm. unfold keySchedule, tickExtract, tickExpand. run.
  rewrite Hs, Hm.
  destruct (verifyPSKInputs _ _ _); simpl; [reflexivity|].
  repeat match goal with
         | |- context [snd (labeledExpand ?a ?b ?c ?d ?e ?f)] =>
             destruct (snd (labeledExpand a b c d e f)); simpl;
             try reflexivity
         end.
Qed.

(** Sealer and opener on the same context, fed the same messages in order:
    whenever a Seal returns no error, the Open of its ciphertext returns the
    plaintext and no error; and no Seal below the message limit fails. *)
Lemma exchange_same_ctx (msgs : list (bytes * bytes)) :
  forall (c : encdecCtx) (i : nat) (m a : bytes),
    aead_correct (aeadOfSuite reg (ctx_Suite c)) ->
    nth_error msgs i = Some (m, a) ->
    exists x,
      nth_error (exchange reg (mkSealCtx c) (mkOpenCtx c) msgs) i = Some x
      /\ (snd (sealed x) = None -> opened x = (m, None))
      /\ (N.of_nat i + sequenceNumber c < seqLimit reg c - 1 ->
          snd (sealed x) = None).
Proof.
  induction msgs as [|[pt aad] rest IH]; intros c i m a Ha Hi.
  - destruct i; discriminate.
  - cbn [exchange].
    destruct (Seal_cases c pt aad) as [Sat Sbelow].
    destruct (Open_cases c
                (aeadSeal (aeadOfSuite reg (ctx_Suite c)) (ctx_key c)
                   (computeNonce reg c) pt aad) aad)
      as (_ & Oat & Obelow).
    specialize (Oat pt (Ha _ _ _ _)). specialize (Obelow pt (Ha _ _ _ _)).
    destruct (N.eq_dec (sequenceNumber c) (seqLimit reg c - 1)) as [E|E].
    + rewrite (Sat E). cbn [fst]. rewrite (Oat E).
      destruct i as [|i]; cbn [nth_error] in *.
      * injection Hi as <- <-. eexists. split; [reflexivity|].
        cbn [sealed opened snd]. split; [discriminate | lia].
      * destruct (IH c i m a Ha Hi) as (x & X1 & X2 & X3).
        exists x. repeat split; try assumption. intros; apply X3; lia.
    + rewrite (Sbelow E). cbn [fst]. rewrite (Obelow E).
      destruct i as [|i]; cbn [nth_error] in *.
      * injection Hi as <- <-. eexists. split; [reflexivity|].
        cbn [sealed opened snd]. split; reflexivity.
      * destruct (IH (set_seq (sequenceNumber c + 1) c) i m a Ha Hi)
          as (x & X1 & X2 & X3).
        exists x. repeat split; try assumption. intros H. apply X3.
        change (seqLimit reg (set_seq (sequenceNumber c + 1) c))
          with (seqLimit reg c).
        change (sequenceNumber (set_seq (sequenceNumber c + 1) c))
          with (sequenceNumber c + 1).
        lia.
Qed.

Lemma scheduleOf_agree (st st' : state PK SK) ss g g' c l g1 :
  state_Suite st = state_Suite st' ->
  state_modeID st = state_modeID st' ->
  state_info st = state_info st' ->
  state_psk st = state_psk st' ->
  state_pskID st = state_pskID st' ->
  scheduleOf reg st ss g = ((Some c, None), l, g1) ->
  (ctx_Suite c = state_Suite st /\ sequenceNumber c = 0)
  /\ exists l' g1', scheduleOf reg st' ss g' = ((Some c, None), l', g1').
Proof.
  unfold scheduleOf. intros Hs Hm Hi Hp Hq H.
  rewrite <- Hi, <- Hp, <- Hq.
  pose proof (keySchedule_state_indep st st' ss (state_info st)
                (state_psk st) (state_pskID st) g g' Hs Hm) as K.
  unfold result in K. rewrite H in K. cbn [fst] in K.
  split.
  - destruct (keySchedule_result st ss (state_info st) (state_psk st)
                (state_pskID st) g) as [[e J] | (c' & J & J0 & Jsu)];
      unfold result in J; rewrite H in J; cbn [fst] in J;
      [discriminate|].
    injection J as ->. split; assumption.
  - destruct (keySchedule reg st' ss _ _ _ g') as [[x l'] g1'].
    cbn [fst] in K. subst x. eauto.
Qed.

(** With a correct KEM and the same transcript, the receiver's setup
    succeeds whenever the sender's did, on the very same context. *)
Lemma setup_same_ctx (su : Suite) (md : mode) (skR : SK) (pkR : PK)
    (skS : SK) (pkS : PK) (psk pskID info enc : bytes) (g g' : R)
    (s1 : Sender PK SK) (sealer : sealCtx) :
  kem_correct (Scheme reg (Suite_KemID su)) skR pkR skS pkS ->
  result (Sender_SetupIn reg md (Some skS) psk pskID
            (mkSender (mkState su x00 None None [] [] info) (Some pkR))) g
  = (s1, (enc, Some sealer, None)) ->
  exists r1,
    result (Receiver_SetupIn reg md enc (Some pkS) psk pskID
              (mkReceiver (mkState su x00 None None [] [] info) (Some skR) []))
      g'
    = (r1, (Some (mkOpenCtx (sealCtx_ctx sealer)), None))
    /\ ctx_Suite (sealCtx_ctx sealer) = su
    /\ sequenceNumber (sealCtx_ctx sealer) = 0.
Proof.
  intros [Hk Hak] H.
  destruct md;
    unfold Sender_SetupIn, Sender_Setup, Sender_SetupPSK, Sender_SetupAuth,
      Sender_SetupAuthPSK in H;
    unfold Receiver_SetupIn, Receiver_Setup, Receiver_SetupPSK,
      Receiver_SetupAuth, Receiver_SetupAuthPSK;
    rewrite result_bind_ret in H; rewrite result_bind_ret;
    eexists; unfold result in *;
    injection H as _ H;
    first [ rewrite Sender_allSetup_encap in H by (simpl; auto)
          | rewrite Sender_allSetup_auth in H by (simpl; auto) ];
    first [ rewrite Receiver_allSetup_decap by (simpl; auto)
          | rewrite Receiver_allSetup_auth by (simpl; auto) ];
    unfold SenderScheme, Sender_buildBase, Sender_buildPSK, Sender_buildAuth,
      Sender_buildAuthPSK in *; simpl in *;
    match type of H with
    | context [Encapsulate ?k ?b g] =>
        destruct (Encapsulate k b g) as [[[e0 ss] [e|]] g0] eqn:E;
        simpl in H; try discriminate; apply Hk in E
    | context [AuthEncapsulate ?k ?b ?c g] =>
        destruct (AuthEncapsulate k b c g) as [[[e0 ss] [e|]] g0] eqn:E;
        simpl in H; try discriminate; apply Hak in E
    end;
    match type of H with
    | context [scheduleOf reg ?st ?s0 ?gg] =>
        destruct (scheduleOf reg st s0 gg) as [[[c0 [e|]] l0] g0'] eqn:E2;
        simpl in H; try discriminate;
        destruct c0 as [c0|]; simpl in H; try discriminate;
        injection H as <- <-; rewrite E; simpl;
        match goal with
        | |- context [scheduleOf reg ?st' s0 g'] =>
            destruct (scheduleOf_agree st st' s0 gg g' c0 l0 g0'
                        eq_refl eq_refl eq_refl eq_refl eq_refl E2)
              as ((Hsu & Hseq) & l' & g1' & ->)
        end
    end; simpl; (split; [reflexivity | split; [exact Hsu | exact Hseq]]).
Qed.



(** *** Sequences of calls on one object *)

Lemma result_bind {A B : Type} (m : M PK SK R A) (f : A -> M PK SK R B)
    (g : R) :
  result (bind m f) g = result (f (result m g)) (rng_after m g).
Proof.
  run. destruct (m g) as [[a l] g1]. simpl.
  destruct (f a g1) as [[b l2] g2]. reflexivity.
Qed.

Lemma calls_bind {A B : Type} (m : M PK SK R A) (f : A -> M PK SK R B)
    (g : R) :
  calls (bind m f) g
  = calls m g ++ calls (f (result m g)) (rng_after m g).
Proof.
  run. destruct (m g) as [[a l] g1]. simpl.
  destruct (f a g1) as [[b l2] g2]. reflexivity.
Qed.

(** The object that an exported call leaves behind, whatever it returns. *)
Lemma Sender_SetupIn_object (md : mode) (skS : option SK) (psk pskID : bytes)
    (s : Sender PK SK) (g : R) :
  let st := Sender_state s in
  fst (result (Sender_SetupIn reg md skS psk pskID s) g)
  = mkSender
      (mkState (state_Suite st) (modeID_of md)
         (if takesKey md then skS else state_skS st)
         (state_pkS st)
         (if takesPSK md then psk else state_psk st)
         (if takesPSK md then pskID else state_pskID st)
         (state_info st))
      (Sender_pkR s).
Proof.
  destruct md;
    unfold Sender_SetupIn, Sender_Setup, Sender_SetupPSK, Sender_SetupAuth,
      Sender_SetupAuthPSK;
    rewrite result_bind_ret; reflexivity.
Qed.

Lemma Receiver_SetupIn_object (md : mode) (enc : bytes) (pkS : option PK)
    (psk pskID : bytes) (r : Receiver PK SK) (g : R) :
  let st := Receiver_state r in
  fst (result (Receiver_SetupIn reg md enc pkS psk pskID r) g)
  = mkReceiver
      (mkState (state_Suite st) (modeID_of md)
         (state_skS st)
         (if takesKey md then pkS else state_pkS st)
         (if takesPSK md then psk else state_psk st)
         (if takesPSK md then pskID else state_pskID st)
         (state_info st))
      (Receiver_skR r) enc.
Proof.
  destruct md;
    unfold Receiver_SetupIn, Receiver_Setup, Receiver_SetupPSK,
      Receiver_SetupAuth, Receiver_SetupAuthPSK;
    rewrite result_bind_ret; reflexivity.
Qed.

Lemma knownMode_of (md : mode) : knownMode (modeID_of md) = true.
Proof. destruct md; reflexivity. Qed.

(** X1.  After any list of exported Setup* calls on a sender, whatever each
    of them returned: suite, info and [pkR] are those of construction and
    [pkS] is untouched; modeID is the constant of the last call; [skS] is
    the one of the last SetupAuth/SetupAuthPSK and [psk], [pskID] those of
    the last SetupPSK/SetupAuthPSK, or the initial ones when there was no
    such call.  A modeID among the four constants stays among them. *)
Theorem Sender_after_calls (cs : list (@SenderCall SK)) :
  forall (s : Sender PK SK) (g : R),
    let st := Sender_state s in
    let s' := result (Sender_calls reg cs s) g in
    s' = mkSender
           (mkState (state_Suite st)
              (lastSet (fun _ => true) (fun c => modeID_of (sc_mode c)) cs
                 (state_modeID st))
              (lastSet (fun c => takesKey (sc_mode c)) sc_skS cs
                 (state_skS st))
              (state_pkS st)
              (lastSet (fun c => takesPSK (sc_mode c)) sc_psk cs
                 (state_psk st))
              (lastSet (fun c => takesPSK (sc_mode c)) sc_pskID cs
                 (state_pskID st))
              (state_info st))
           (Sender_pkR s)
    /\ (knownMode (state_modeID st) = true ->
        knownMode (state_modeID (Sender_state s')) = true).
Proof.
  induction cs as [|[[[md skS] psk] pskID] cs IH]; intros s g st s';
    subst st s'.
  - split; [destruct s as [[] ?]; reflexivity | auto].
  - cbn [Sender_calls]. rewrite result_bind.
    specialize (IH (fst (result (Sender_call reg (md, skS, psk, pskID) s) g))
                  (rng_after (Sender_call reg (md, skS, psk, pskID) s) g)).
    cbv zeta in IH. destruct IH as [IH1 IH2].
    unfold Sender_call in *. rewrite Sender_SetupIn_object in IH1, IH2 |- *.
    cbn [Sender_state Sender_pkR state_Suite state_modeID state_skS
         state_pkS state_psk state_pskID state_info] in IH1, IH2.
    split.
    + rewrite IH1. unfold lastSet. reflexivity.
    + intros _. apply IH2. apply knownMode_of.
Qed.

(** X2.  After any list of exported Setup* calls on a receiver: suite, info
    and [skR] are those of construction and [skS] is untouched; modeID is
    the constant of the last call and [enc] the one it was given; [pkS] is
    the one of the last SetupAuth/SetupAuthPSK and [psk], [pskID] those of
    the last SetupPSK/SetupAuthPSK, or the initial ones. *)
Theorem Receiver_after_calls (cs : list (@ReceiverCall PK)) :
  forall (r : Receiver PK SK) (g : R),
    let st := Receiver_state r in
    let r' := result (Receiver_calls reg cs r) g in
    r' = mkReceiver
           (mkState (state_Suite st)
              (lastSet (fun _ => true) (fun c => modeID_of (rc_mode c)) cs
                 (state_modeID st))
              (state_skS st)
              (lastSet (fun c => takesKey (rc_mode c)) rc_pkS cs
                 (state_pkS st))
              (lastSet (fun c => takesPSK (rc_mode c)) rc_psk cs
                 (state_psk st))
              (lastSet (fun c => takesPSK (rc_mode c)) rc_pskID cs
                 (state_pskID st))
              (state_info st))
           (Receiver_skR r)
           (lastSet (fun _ => true) rc_enc cs (Receiver_enc r))
    /\ (knownMode (state_modeID st) = true ->
        knownMode (state_modeID (Receiver_state r')) = true).
Proof.
  induction cs as [|[[[[md enc] pkS] psk] pskID] cs IH]; intros r g st r';
    subst st r'.
  - split; [destruct r as [[] ? ?]; reflexivity | auto].
  - cbn [Receiver_calls]. rewrite result_bind.
    specialize (IH (fst (result (Receiver_call reg (md, enc, pkS, psk, pskID)
                                   r) g))
                  (rng_after (Receiver_call reg (md, enc, pkS, psk, pskID)
                                r) g)).
    cbv zeta in IH. destruct IH as [IH1 IH2].
    unfold Receiver_call in *. rewrite Receiver_SetupIn_object in IH1, IH2 |- *.
    cbn [Receiver_state Receiver_skR Receiver_enc state_Suite state_modeID
         state_skS state_pkS state_psk state_pskID state_info] in IH1, IH2.
    split.
    + rewrite IH1. unfold lastSet. reflexivity.
    + intros _. apply IH2. apply knownMode_of.
Qed.

Lemma scheduleOf_no_kem_call (st : state PK SK) ss g c l g2 :
  scheduleOf reg st ss g = (c, l, g2) -> filter isKemCall l = [].
Proof.
  intros H.
  assert (K : filter isKemCall (calls (scheduleOf reg st ss) g) = []).
  { unfold scheduleOf, keySchedule, tickExtract, tickExpand. run.
    destruct (verifyPSKInputs _ _ _); simpl; [reflexivity|].
    repeat match goal with
           | |- context [snd (labeledExpand ?a ?b ?c ?d ?e ?f)] =>
               destruct (snd (labeledExpand a b c d e f)); simpl
           end; reflexivity. }
  unfold calls in K. rewrite H in K. exact K.
Qed.

Lemma Sender_SetupIn_kem_calls (md : mode) (skS : option SK)
    (psk pskID : bytes) (s : Sender PK SK) (g : R) :
  filter isKemCall (calls (Sender_SetupIn reg md skS psk pskID s) g)
  = [if takesKey md then CallAuthEncapsulate (Sender_pkR s) skS
     else CallEncapsulate (Sender_pkR s)].
Proof.
  destruct md; sender_cases;
    match goal with
    | |- context [Encapsulate ?a ?b ?c] =>
        destruct (Encapsulate a b c) as [[[e1 ss] [e|]] g1]
    | |- context [AuthEncapsulate ?a ?b ?c ?d] =>
        destruct (AuthEncapsulate a b c d) as [[[e1 ss] [e|]] g1]
    end; simpl; try reflexivity;
    match goal with
    | |- context [scheduleOf reg ?st ?ss ?g] =>
        destruct (scheduleOf reg st ss g) as [[c l] g2] eqn:E;
        apply scheduleOf_no_kem_call in E
    end; simpl; rewrite E; reflexivity.
Qed.

Lemma Receiver_SetupIn_kem_calls (md : mode) (enc : bytes) (pkS : option PK)
    (psk pskID : bytes) (r : Receiver PK SK) (g : R) :
  filter isKemCall (calls (Receiver_SetupIn reg md enc pkS psk pskID r) g)
  = [if takesKey md then CallAuthDecapsulate (Receiver_skR r) enc pkS
     else CallDecapsulate (Receiver_skR r) enc].
Proof.
  destruct md; receiver_cases;
    match goal with
    | |- context [Decapsulate ?a ?b ?c] =>
        destruct (Decapsulate a b c) as [ss [e|]]
    | |- context [AuthDecapsulate ?a ?b ?c ?d] =>
        destruct (AuthDecapsulate a b c d) as [ss [e|]]
    end; simpl; try reflexivity;
    match goal with
    | |- context [scheduleOf reg ?st ?ss ?g] =>
        destruct (scheduleOf reg st ss g) as [[c l] g2] eqn:E;
        apply scheduleOf_no_kem_call in E
    end; simpl; rewrite E; reflexivity.
Qed.

(** X3.  A list of exported Setup* calls makes exactly one KEM call per
    call, in order, whether or not the calls succeed: on a sender an
    encapsulation to the [pkR] of construction ([AuthEncapsulate] with the
    call's [skS] for SetupAuth/SetupAuthPSK), on a receiver a decapsulation
    with the [skR] of construction of the call's [enc] (and [pkS]).  A
    sender never decapsulates and a receiver never encapsulates. *)
Theorem kem_calls_of_calls (scs : list (@SenderCall SK))
    (rcs : list (@ReceiverCall PK)) (s : Sender PK SK) (r : Receiver PK SK)
    (g : R) :
  filter isKemCall (calls (Sender_calls reg scs s) g)
  = map (fun c => if takesKey (sc_mode c)
                  then CallAuthEncapsulate (Sender_pkR s) (sc_skS c)
                  else CallEncapsulate (Sender_pkR s)) scs
  /\ filter isKemCall (calls (Receiver_calls reg rcs r) g)
     = map (fun c => if takesKey (rc_mode c)
                     then CallAuthDecapsulate (Receiver_skR r) (rc_enc c)
                            (rc_pkS c)
                     else CallDecapsulate (Receiver_skR r) (rc_enc c)) rcs.
Proof.
  split.
  - revert s g.
    induction scs as [|[[[md skS] psk] pskID] cs IH]; intros s g.
    + reflexivity.
    + cbn [Sender_calls map]. rewrite calls_bind, filter_app.
      unfold Sender_call at 1. rewrite Sender_SetupIn_kem_calls.
      rewrite IH. unfold Sender_call. rewrite Sender_SetupIn_object.
      reflexivity.
  - revert r g.
    induction rcs as [|[[[[md enc] pkS] psk] pskID] cs IH]; intros r g.
    + reflexivity.
    + cbn [Receiver_calls map]. rewrite calls_bind, filter_app.
      unfold Receiver_call at 1. rewrite Receiver_SetupIn_kem_calls.
      rewrite IH. unfold Receiver_call. rewrite Receiver_SetupIn_object.
      reflexivity.
Qed.

(** *** What a setup call returns *)

Lemma scheduleOf_result (st : state PK SK) ss g :
  (exists e l g2, scheduleOf reg st ss g = ((None, Some e), l, g2))
  \/ (exists c l g2, scheduleOf reg st ss g = ((Some c, None), l, g2)).
Proof.
  destruct (keySchedule_result st ss (state_info st) (state_psk st)
              (state_pskID st) g) as [[e K] | (c & K & _)];
    unfold result in K; unfold scheduleOf;
    destruct (keySchedule reg st ss _ _ _ g) as [[x l] g2];
    cbn [fst] in K; subst x; [left | right]; eauto.
Qed.

(** X4.  Every Setup* call returns either no error and a context, or an
    error and no context; with an error the sender's [enc] is nil too, also
    when the KEM had produced one and only the key schedule failed. *)
Theorem setup_error_xor_context (md : mode) (skS : option SK)
    (pkS : option PK) (psk pskID enc : bytes) (s : Sender PK SK)
    (r : Receiver PK SK) (g : R) :
  let so := snd (result (Sender_SetupIn reg md skS psk pskID s) g) in
  let ro := snd (result (Receiver_SetupIn reg md enc pkS psk pskID r) g) in
  ((snd so = None /\ snd (fst so) <> None)
   \/ (snd so <> None /\ snd (fst so) = None /\ fst (fst so) = []))
  /\ ((snd ro = None /\ fst ro <> None)
      \/ (snd ro <> None /\ fst ro = None)).
Proof.
  intros so ro. subst so ro. split.
  - destruct md; sender_cases;
      match goal with
      | |- context [Encapsulate ?a ?b ?c] =>
          destruct (Encapsulate a b c) as [[[e1 ss] [e|]] g1]
      | |- context [AuthEncapsulate ?a ?b ?c ?d] =>
          destruct (AuthEncapsulate a b c d) as [[[e1 ss] [e|]] g1]
      end; simpl; try (right; repeat split; congruence);
      match goal with
      | |- context [scheduleOf reg ?st ?ss ?g] =>
          destruct (scheduleOf_result st ss g)
            as [(e & l & g2 & ->) | (c & l & g2 & ->)];
          simpl; [right | left]; repeat split; congruence
      end.
  - destruct md; receiver_cases;
      match goal with
      | |- context [Decapsulate ?a ?b ?c] =>
          destruct (Decapsulate a b c) as [ss [e|]]
      | |- context [AuthDecapsulate ?a ?b ?c ?d] =>
          destruct (AuthDecapsulate a b c d) as [ss [e|]]
      end; simpl; try (right; repeat split; congruence);
      match goal with
      | |- context [scheduleOf reg ?st ?ss ?g] =>
          destruct (scheduleOf_result st ss g)
            as [(e & l & g2 & ->) | (c & l & g2 & ->)];
          simpl; [right | left]; repeat split; congruence
      end.
Qed.

Lemma knownMode_false (m : modeID) :
  knownMode m = false ->
  Byte.eqb m modeBase || Byte.eqb m modePSK = false
  /\ Byte.eqb m modeAuth || Byte.eqb m modeAuthPSK = false.
Proof.
  unfold knownMode.
  destruct (Byte.eqb m modeBase), (Byte.eqb m modePSK),
    (Byte.eqb m modeAuth), (Byte.eqb m modeAuthPSK); simpl;
    intros H; split; congruence.
Qed.

(** X5.  The switch of allSetup has no default case.  Under a modeID that
    is none of the four constants, allSetup makes no KEM call and still
    runs the key schedule, on an empty shared secret; the sender's [enc] is
    nil. *)
Theorem allSetup_unknown_mode (k : AuthScheme PK SK R) (s : Sender PK SK)
    (r : Receiver PK SK) (g : R) :
  (knownMode (state_modeID (Sender_state s)) = false ->
   let st := Sender_state s in
   filter isKemCall (calls (Sender_allSetup reg k s) g) = []
   /\ setupCalls (calls (Sender_allSetup reg k s) g)
      = [CallKeySchedule (state_modeID st) [] (state_info st) (state_psk st)
           (state_pskID st)]
   /\ fst (fst (result (Sender_allSetup reg k s) g)) = [])
  /\ (knownMode (state_modeID (Receiver_state r)) = false ->
      let st := Receiver_state r in
      filter isKemCall (calls (Receiver_allSetup reg r) g) = []
      /\ setupCalls (calls (Receiver_allSetup reg r) g)
         = [CallKeySchedule (state_modeID st) [] (state_info st)
              (state_psk st) (state_pskID st)]).
Proof.
  split; intros H st; subst st; apply knownMode_false in H;
    destruct H as [H1 H2].
  - unfold Sender_allSetup. rewrite H1, H2. run.
    fold (scheduleOf reg (Sender_state s) [] g).
    destruct (scheduleOf reg (Sender_state s) [] g) as [[c l] g2] eqn:E.
    pose proof (scheduleOf_no_kem_call _ _ _ _ _ _ E) as K1.
    pose proof (setupCalls_schedule _ _ _ _ _ _ E) as K2.
    destruct c as [ctx [e|]]; simpl; rewrite app_nil_r;
      repeat split; assumption.
  - unfold Receiver_allSetup. rewrite H1, H2. run.
    fold (scheduleOf reg (Receiver_state r) [] g).
    destruct (scheduleOf reg (Receiver_state r) [] g) as [[c l] g2] eqn:E.
    pose proof (scheduleOf_no_kem_call _ _ _ _ _ _ E) as K1.
    pose proof (setupCalls_schedule _ _ _ _ _ _ E) as K2.
    destruct c as [ctx [e|]]; simpl; rewrite app_nil_r;
      repeat split; assumption.
Qed.

(** X6.  When a Setup* call succeeds, the sender's [enc] is the
    encapsulated key that the KEM returned, unchanged, and the context
    handed out is the one the key schedule returned for the KEM's shared
    secret, run on the object as the call left it; likewise the receiver's
    opener, for the shared secret of the decapsulation. *)
Theorem setup_success_from_kem (md : mode) (skS : option SK)
    (pkS : option PK) (psk pskID enc : bytes) (s : Sender PK SK)
    (r : Receiver PK SK) (g : R) :
  (forall s1 e sealer,
      result (Sender_SetupIn reg md skS psk pskID s) g
      = (s1, (e, Some sealer, None)) ->
      let k := senderKem (SenderScheme reg s) md (Sender_pkR s) skS g in
      snd (fst k) = None
      /\ fst (fst (fst k)) = e
      /\ result (scheduleOf reg (Sender_state s1) (snd (fst (fst k))))
           (snd k)
         = (Some (sealCtx_ctx sealer), None))
  /\ (forall r1 opener,
         result (Receiver_SetupIn reg md enc pkS psk pskID r) g
         = (r1, (Some opener, None)) ->
         let k := receiverKem
                    (Scheme reg (Suite_KemID (state_Suite (Receiver_state r))))
                    md (Receiver_skR r) enc pkS in
         snd k = None
         /\ result (scheduleOf reg (Receiver_state r1) (fst k)) g
            = (Some (openCtx_ctx opener), None)).
Proof.
  split.
  - intros s1 e sealer H k. subst k. unfold senderKem, SenderScheme.
    destruct md;
      unfold Sender_SetupIn, Sender_Setup, Sender_SetupPSK, Sender_SetupAuth,
        Sender_SetupAuthPSK in H;
      rewrite result_bind_ret in H; unfold result in *;
      injection H as <- H;
      first [ rewrite Sender_allSetup_encap in H by (simpl; auto)
            | rewrite Sender_allSetup_auth in H by (simpl; auto) ];
      unfold SenderScheme, Sender_buildBase, Sender_buildPSK,
        Sender_buildAuth, Sender_buildAuthPSK in *; simpl in *;
      match type of H with
      | context [Encapsulate ?a ?b ?c] =>
          destruct (Encapsulate a b c) as [[[e0 ss] [er|]] g1]
      | context [AuthEncapsulate ?a ?b ?c ?d] =>
          destruct (AuthEncapsulate a b c d) as [[[e0 ss] [er|]] g1]
      end; simpl in *; try discriminate;
      match type of H with
      | context [scheduleOf reg ?st ?s0 ?gg] =>
          destruct (scheduleOf reg st s0 gg) as [[[c0 [er|]] l0] g2];
          simpl in H; try discriminate;
          destruct c0 as [c0|]; simpl in H; try discriminate;
          injection H as <- <-
      end; repeat split.
  - intros r1 opener H k. subst k. unfold receiverKem.
    destruct md;
      unfold Receiver_SetupIn, Receiver_Setup, Receiver_SetupPSK,
        Receiver_SetupAuth, Receiver_SetupAuthPSK in H;
      rewrite result_bind_ret in H; unfold result in *;
      injection H as <- H;
      first [ rewrite Receiver_allSetup_decap in H by (simpl; auto)
            | rewrite Receiver_allSetup_auth in H by (simpl; auto) ];
      simpl in *;
      match type of H with
      | context [Decapsulate ?a ?b ?c] =>
          destruct (Decapsulate a b c) as [ss [er|]]
      | context [AuthDecapsulate ?a ?b ?c ?d] =>
          destruct (AuthDecapsulate a b c d) as [ss [er|]]
      end; simpl in *; try discriminate;
      match type of H with
      | context [scheduleOf reg ?st ?s0 ?gg] =>
          destruct (scheduleOf reg st s0 gg) as [[[c0 [er|]] l0] g2];
          simpl in H; try discriminate;
          destruct c0 as [c0|]; simpl in H; try discriminate;
          injection H as <-
      end; repeat split.
Qed.

Lemma scheduleOf_schedule_calls (st : state PK SK) ss g c l g2 :
  scheduleOf reg st ss g = (c, l, g2) ->
  filter isKeyScheduleCall l
  = [CallKeySchedule (state_modeID st) ss (state_info st) (state_psk st)
       (state_pskID st)].
Proof.
  intros H.
  assert (K : filter isKeyScheduleCall (calls (scheduleOf reg st ss) g)
              = [CallKeySchedule (state_modeID st) ss (state_info st)
                   (state_psk st) (state_pskID st)]).
  { unfold scheduleOf, keySchedule, tickExtract, tickExpand. run.
    destruct (verifyPSKInputs _ _ _); simpl; [reflexivity|].
    repeat match goal with
           | |- context [snd (labeledExpand ?a ?b ?c ?d ?e ?f)] =>
               destruct (snd (labeledExpand a b c d e f)); simpl
           end; reflexivity. }
  unfold calls in K. rewrite H in K. exact K.
Qed.

(** X7.  Sender and receiver run the key schedule on the same inputs.  For
    objects constructed with the same suite and info, matching key pairs
    and a correct KEM: when the sender's KEM call returns no error, the
    sender's Setup* call and the receiver's call of the same mode on the
    sender's [enc], with the same PSK inputs, each make exactly one key
    schedule call, with the same modeID, shared secret, info, psk and
    pskID. *)
Theorem key_schedule_inputs_agree (su : Suite) (md : mode) (skR : SK)
    (pkR : PK) (skS : SK) (pkS : PK) (psk pskID info : bytes) (g g' : R) :
  kem_correct (Scheme reg (Suite_KemID su)) skR pkR skS pkS ->
  let s0 := mkSender (mkState su x00 None None [] [] info) (Some pkR) in
  let r0 := mkReceiver (mkState su x00 None None [] [] info) (Some skR) [] in
  let k := senderKem (Scheme reg (Suite_KemID su)) md (Some pkR) (Some skS) g
  in
  snd (fst k) = None ->
  let c := CallKeySchedule (modeID_of md) (snd (fst (fst k))) info
             (if takesPSK md then psk else [])
             (if takesPSK md then pskID else []) in
  filter isKeyScheduleCall
    (calls (Sender_SetupIn reg md (Some skS) psk pskID s0) g) = [c]
  /\ filter isKeyScheduleCall
       (calls (Receiver_SetupIn reg md (fst (fst (fst k))) (Some pkS)
                 psk pskID r0) g') = [c].
Proof.
  intros [Hk Hak] s0 r0 k Hok c. subst s0 r0 k c. unfold senderKem in *.
  split.
  - destruct md; sender_cases;
      match goal with
      | |- context [Encapsulate ?a ?b ?c] =>
          destruct (Encapsulate a b c) as [[[e1 ss] er] g1]
      | |- context [AuthEncapsulate ?a ?b ?c ?d] =>
          destruct (AuthEncapsulate a b c d) as [[[e1 ss] er] g1]
      end; simpl in Hok; subst er; simpl;
      match goal with
      | |- context [scheduleOf reg ?st ?ss ?g] =>
          destruct (scheduleOf reg st ss g) as [[c l] g2] eqn:E;
          apply scheduleOf_schedule_calls in E
      end; simpl in *; rewrite E; reflexivity.
  - destruct md; receiver_cases;
      match goal with
      | |- context [Encapsulate ?a ?b ?c] =>
          destruct (Encapsulate a b c) as [[[e1 ss] er] g1] eqn:K;
          simpl in Hok; subst er; apply Hk in K
      | |- context [AuthEncapsulate ?a ?b ?c ?d] =>
          destruct (AuthEncapsulate a b c d) as [[[e1 ss] er] g1] eqn:K;
          simpl in Hok; subst er; apply Hak in K
      end; simpl; rewrite K; simpl;
      match goal with
      | |- context [scheduleOf reg ?st ?ss ?g] =>
          destruct (scheduleOf reg st ss g) as [[c l] g2] eqn:E;
          apply scheduleOf_schedule_calls in E
      end; simpl in *; rewrite E; reflexivity.
Qed.

(** X8.  What [verify] of the test checks on both sides.  For objects
    constructed with the same suite and info, matching key pairs and a
    correct KEM: when the sender's Setup* call succeeds, the receiver's call
    of the same mode on the sender's [enc] succeeds, and the opener holds
    the very context of the sealer: the same [baseNonce] and
    [exporterSecret] (as [checkAead] compares them with one expected value)
    and the same Export outputs (as [checkExports] does). *)
Theorem contexts_agree (su : Suite) (md : mode) (skR : SK) (pkR : PK)
    (skS : SK) (pkS : PK) (psk pskID info : bytes) (g g' : R) :
  kem_correct (Scheme reg (Suite_KemID su)) skR pkR skS pkS ->
  let s0 := mkSender (mkState su x00 None None [] [] info) (Some pkR) in
  let r0 := mkReceiver (mkState su x00 None None [] [] info) (Some skR) [] in
  forall s1 enc sealer,
    result (Sender_SetupIn reg md (Some skS) psk pskID s0) g
    = (s1, (enc, Some sealer, None)) ->
    exists r1 opener,
      result (Receiver_SetupIn reg md enc (Some pkS) psk pskID r0) g'
      = (r1, (Some opener, None))
      /\ baseNonce (openCtx_ctx opener) = baseNonce (sealCtx_ctx sealer)
      /\ exporterSecret (openCtx_ctx opener)
         = exporterSecret (sealCtx_ctx sealer)
      /\ openCtx_ctx opener = sealCtx_ctx sealer
      /\ forall expCtx L,
           Export reg (openCtx_ctx opener) expCtx L
           = Export reg (sealCtx_ctx sealer) expCtx L.
Proof.
  intros Hk s0 r0 s1 enc sealer H. subst s0 r0.
  destruct (setup_same_ctx su md skR pkR skS pkS psk pskID info enc g g'
              s1 sealer Hk H) as (r1 & Hr & _).
  exists r1, (mkOpenCtx (sealCtx_ctx sealer)).
  split; [exact Hr|]. repeat split.
Qed.

End Properties.

(** ** The statements on the concrete suite *)

Lemma Demo_kem_correct :
  kem_correct (Scheme Demo.registry 32) 7 8 3 4.
Proof.
  split; intros g enc ss g' H; simpl in H; injection H as <- <- _;
    reflexivity.
Qed.

Lemma Demo_aead_correct : aead_correct (aeadOfSuite Demo.registry Demo.suite).
Proof.
  intros key nonce pt aad. simpl.
  rewrite (Byte.byte_dec_lb eq_refl). reflexivity.
Qed.


(** Two messages through that pair. *)
Example roundtrip_run :
  exists opener,
    snd (result (Receiver_SetupIn Demo.registry AuthPSK [x05] (Some 4)
                   [x01] [x02] Demo.receiver) 0)
    = (Some opener, None)
    /\ map opened
         (exchange Demo.registry Demo.sealer opener
            [([x41], [x42]); ([x43], [])])
       = [([x41], None); ([x43], None)].
Proof. vm_compute. eexists. repeat split. Qed.



(** C4: only [pskID] is empty, yet SetupPSK on a sender without a receiver
    key fails with the KEM's error: the KEM runs before the PSK check. *)
Lemma psk_error_counterexample :
  isEmpty [x01] <> isEmpty []
  /\ snd (result (Sender_SetupPSK Demo.registry [x01] [] Demo.senderNoKey) 0)
     = ([], None, Some (KemFailure "nil public key"))
  /\ snd (snd (result (Sender_SetupPSK Demo.registry [x01] []
                         Demo.senderNoKey) 0))
     <> Some InvalidPSKInputs.
Proof. repeat split; discriminate. Qed.

(** C4 on the concrete suite: with a KEM operation that
    succeeds, the one-sided PSK inputs are refused with InvalidPSKInputs, on
    both sides, before any derivation. *)
Lemma psk_check_witness :
  (snd (result (Sender_SetupPSK Demo.registry [x01] [] Demo.sender) 0)
   = ([], None, Some InvalidPSKInputs)
   /\ filter isDerivation
        (calls (Sender_SetupPSK Demo.registry [x01] [] Demo.sender) 0) = [])
  /\ snd (result (Receiver_SetupPSK Demo.registry [x00] [x01] []
                    Demo.receiver) 0)
     = (None, Some InvalidPSKInputs).
Proof.
  destruct (psk_check_at_setup Demo.registry PSK None None [x01] [] [x00]
              Demo.sender Demo.receiver 0) as [S Rv].
  destruct (S ltac:(left; discriminate)) as (_ & _ & S3 & S4).
  destruct (Rv ltac:(left; discriminate)) as (_ & _ & _ & R4).
  split; [split; [exact (S4 eq_refl) | exact S3] | exact (R4 eq_refl)].
Defined.



(** C6 on the concrete suite: a nil receiver key makes the KEM fail. *)
Lemma kem_failure_witness :
  (snd (result (Sender_Setup Demo.registry Demo.senderNoKey) 0)
   = ([], None, Some (KemFailure "nil public key"))
   /\ filter isKeyScheduleCall
        (calls (Sender_Setup Demo.registry Demo.senderNoKey) 0) = [])
  /\ snd (result (Receiver_SetupAuth Demo.registry [x00] (Some 4)
                    Demo.receiverNoKey) 0)
     = (None, Some (KemFailure "nil key")).
Proof.
  destruct (kem_failure_aborts_setup Demo.registry Base None None [] [] []
              Demo.senderNoKey Demo.receiverNoKey 0
              (KemFailure "nil public key")) as [S _].
  destruct (kem_failure_aborts_setup Demo.registry Auth None (Some 4) [] []
              [x00] Demo.senderNoKey Demo.receiverNoKey 0
              (KemFailure "nil key")) as [_ Rv].
  destruct (S eq_refl) as (S1 & S2 & _).
  destruct (Rv eq_refl) as (R1 & _).
  split; [split; [exact S1 | exact S2] | exact R1].
Defined.

(** C7 on the concrete suite: KemID 33 is unknown, the suite (32, 1, 1) is
    valid. *)
Lemma New_validates_witness :
  NewSender Demo.registry (mkSuite 33 1 1) (Some 8) [x69]
  = (None, Some InvalidSuite)
  /\ NewReceiver Demo.registry (mkSuite 32 1 2) (Some 7) [x69]
     = (None, Some InvalidSuite)
  /\ NewSender Demo.registry Demo.suite (Some 8) [x69]
     = (Some Demo.sender, None)
  /\ NewReceiver Demo.registry Demo.suite (Some 7) [x69]
     = (Some Demo.receiver, None).
Proof.
  destruct (New_validates_suite Demo.registry (mkSuite 33 1 1) (Some 8)
              (Some 7) [x69]) as [A _].
  destruct (New_validates_suite Demo.registry (mkSuite 32 1 2) (Some 8)
              (Some 7) [x69]) as [B _].
  destruct (New_validates_suite Demo.registry Demo.suite (Some 8)
              (Some 7) [x69]) as [_ C].
  destruct (A ltac:(left; reflexivity)) as [A1 _].
  destruct (B ltac:(right; right; reflexivity)) as [_ B2].
  destruct (C ltac:(repeat split)) as [C1 C2].
  exact (conj A1 (conj B2 (conj C1 C2))).
Defined.

(** C8: a second Setup on the sender that has just been set up yields a
    second context, for a different encapsulated key. *)
Lemma second_setup_counterexample :
  let first := result (Sender_Setup Demo.registry Demo.sender) 0 in
  let second := result (Sender_Setup Demo.registry (fst first)) 1 in
  exists c1 c2,
    snd first = ([x00], Some c1, None)
    /\ snd second = ([x01], Some c2, None)
    /\ snd (snd (Seal Demo.registry c2 [x41] [])) = None.
Proof. vm_compute. eexists. eexists. repeat split. Qed.

(** C8 on the concrete suite: both objects are set up a second time. *)
Lemma setup_repeated_witness :
  (exists e2 c2,
      result (Sender_Setup Demo.registry (Sender_buildBase Demo.sender)) 1
      = (Sender_buildBase Demo.sender, (e2, Some c2, None)))
  /\ result (Receiver_Setup Demo.registry [x00]
               (fst (result (Receiver_Setup Demo.registry [x00]
                               Demo.receiver) 0))) 1
     = result (Receiver_Setup Demo.registry [x00] Demo.receiver) 0.
Proof.
  destruct (setup_can_be_repeated Demo.registry Base None None [] [] [x00]
              Demo.sender Demo.receiver 0 1) as [S Rv].
  split.
  - exact (S _ _ _ eq_refl eq_refl).
  - exact (Rv _ _ eq_refl).
Defined.

(** C10 on the concrete suite: construction accepts nil keys; the Setup
    calls then return the KEM's errors. *)
Lemma New_defers_witness :
  NewSender Demo.registry Demo.suite None [x69]
  = (Some Demo.senderNoKey, None)
  /\ NewReceiver Demo.registry Demo.suite None [x69]
     = (Some Demo.receiverNoKey, None)
  /\ snd (result (Sender_Setup Demo.registry Demo.senderNoKey) 0)
     = ([], None, Some (KemFailure "nil public key"))
  /\ snd (result (Receiver_Setup Demo.registry [x00] Demo.receiverNoKey) 0)
     = (None, Some (KemFailure "nil private key")).
Proof.
  destruct (New_defers_key_errors Demo.registry Demo.suite None None [x69]
              eq_refl) as (A & B & C & D).
  exact (conj A (conj B (conj (C 0 _ eq_refl) (D 0 [x00] _ eq_refl)))).
Defined.

(** X1 on the concrete suite: SetupAuth, SetupPSK, then Setup. *)
Lemma Sender_after_calls_witness :
  result (Sender_calls Demo.registry
            [(Auth, Some 3, [], []); (PSK, None, [x01], [x02]);
             (Base, None, [], [])]
            Demo.sender) 0
  = mkSender (mkState Demo.suite x00 (Some 3) None [x01] [x02] [x69]) (Some 8)
  /\ knownMode
       (state_modeID
          (Sender_state
             (result (Sender_calls Demo.registry
                        [(Auth, Some 3, [], []); (PSK, None, [x01], [x02]);
                         (Base, None, [], [])]
                        Demo.sender) 0)))
     = true.
Proof.
  destruct (Sender_after_calls Demo.registry
              [(Auth, Some 3, [], []); (PSK, None, [x01], [x02]);
               (Base, None, [], [])]
              Demo.sender 0) as [A B].
  exact (conj A (B eq_refl)).
Defined.

(** X2 on the concrete suite: SetupAuthPSK, then Setup on another [enc]. *)
Lemma Receiver_after_calls_witness :
  result (Receiver_calls Demo.registry
            [(AuthPSK, [x05], Some 4, [x01], [x02]);
             (Base, [x09], None, [], [])]
            Demo.receiver) 0
  = mkReceiver (mkState Demo.suite x00 None (Some 4) [x01] [x02] [x69])
      (Some 7) [x09]
  /\ knownMode
       (state_modeID
          (Receiver_state
             (result (Receiver_calls Demo.registry
                        [(AuthPSK, [x05], Some 4, [x01], [x02]);
                         (Base, [x09], None, [], [])]
                        Demo.receiver) 0)))
     = true.
Proof.
  destruct (Receiver_after_calls Demo.registry
              [(AuthPSK, [x05], Some 4, [x01], [x02]);
               (Base, [x09], None, [], [])]
              Demo.receiver 0) as [A B].
  exact (conj A (B eq_refl)).
Defined.

(** X5 on the concrete suite, under modeID 4. *)
Lemma allSetup_unknown_mode_witness :
  (filter isKemCall
     (calls (Sender_allSetup Demo.registry Demo.kem Demo.senderOddMode) 0) = []
   /\ setupCalls
        (calls (Sender_allSetup Demo.registry Demo.kem Demo.senderOddMode) 0)
      = [CallKeySchedule x04 [] [x69] [] []]
   /\ fst (fst (result (Sender_allSetup Demo.registry Demo.kem
                          Demo.senderOddMode) 0)) = [])
  /\ (filter isKemCall
        (calls (Receiver_allSetup Demo.registry Demo.receiverOddMode) 0) = []
      /\ setupCalls
           (calls (Receiver_allSetup Demo.registry Demo.receiverOddMode) 0)
         = [CallKeySchedule x04 [] [x69] [] []]).
Proof.
  destruct (allSetup_unknown_mode Demo.registry Demo.kem Demo.senderOddMode
              Demo.receiverOddMode 0) as [S Rv].
  exact (conj (S eq_refl) (Rv eq_refl)).
Defined.

(** X6 on the concrete suite: the AuthPSK setup that returns [Demo.sealer],
    and the receiver's Base setup on the encapsulated key [0]. *)
Lemma setup_success_from_kem_witness :
  (fst (fst (fst (AuthEncapsulate Demo.kem (Some 8) (Some 3) 5))) = [x05]
   /\ result (scheduleOf Demo.registry
                (Sender_state
                   (Sender_buildAuthPSK (Some 3) [x01] [x02] Demo.sender))
                (snd (fst (fst (AuthEncapsulate Demo.kem (Some 8) (Some 3) 5)))))
        6
      = (Some (sealCtx_ctx Demo.sealer), None))
  /\ exists opener,
       snd (result (Receiver_Setup Demo.registry [x00] Demo.receiver) 0)
       = (Some opener, None)
       /\ result (scheduleOf Demo.registry
                    (Receiver_state
                       (fst (result (Receiver_Setup Demo.registry [x00]
                                       Demo.receiver) 0)))
                    (fst (Decapsulate Demo.kem (Some 7) [x00]))) 0
          = (Some (openCtx_ctx opener), None).
Proof.
  destruct (setup_success_from_kem Demo.registry AuthPSK (Some 3) None
              [x01] [x02] [] Demo.sender Demo.receiver 5) as [S _].
  destruct (setup_success_from_kem Demo.registry Base None None
              [] [] [x00] Demo.sender Demo.receiver 0) as [_ Rv].
  destruct (S _ _ Demo.sealer eq_refl) as (_ & S2 & S3).
  split; [exact (conj S2 S3)|].
  eexists. split; [reflexivity|].
  exact (proj2 (Rv _ _ eq_refl)).
Defined.

(** X7 on the concrete suite, in mode AuthPSK. *)
Lemma key_schedule_inputs_agree_witness :
  filter isKeyScheduleCall
    (calls (Sender_SetupIn Demo.registry AuthPSK (Some 3) [x01] [x02]
              Demo.sender) 5)
  = [CallKeySchedule x03 [x08; x04; x05] [x69] [x01] [x02]]
  /\ filter isKeyScheduleCall
       (calls (Receiver_SetupIn Demo.registry AuthPSK [x05] (Some 4)
                 [x01] [x02] Demo.receiver) 0)
     = [CallKeySchedule x03 [x08; x04; x05] [x69] [x01] [x02]].
Proof.
  exact (key_schedule_inputs_agree Demo.registry Demo.suite AuthPSK 7 8 3 4
           [x01] [x02] [x69] 5 0 Demo_kem_correct eq_refl).
Defined.

(** X8 on the concrete suite, in mode AuthPSK. *)
Lemma contexts_agree_witness :
  exists r1 opener,
    result (Receiver_SetupIn Demo.registry AuthPSK [x05] (Some 4) [x01] [x02]
              Demo.receiver) 0
    = (r1, (Some opener, None))
    /\ baseNonce (openCtx_ctx opener) = baseNonce (sealCtx_ctx Demo.sealer)
    /\ exporterSecret (openCtx_ctx opener)
       = exporterSecret (sealCtx_ctx Demo.sealer)
    /\ openCtx_ctx opener = sealCtx_ctx Demo.sealer
    /\ forall expCtx L,
         Export Demo.registry (openCtx_ctx opener) expCtx L
         = Export Demo.registry (sealCtx_ctx Demo.sealer) expCtx L.
Proof.
  exact (contexts_agree Demo.registry Demo.suite AuthPSK 7 8 3 4 [x01] [x02]
           [x69] 5 0 Demo_kem_correct
           (Sender_buildAuthPSK (Some 3) [x01] [x02] Demo.sender)
           [x05] Demo.sealer eq_refl).
Defined.
